(** * Previsor de Gastos: the monthly forecast of [app.py]

    A shallow embedding of [monthly_forecast] (app.py, lines 104-140) and
    the properties of its output.

    [monthly_forecast] is the function as written.  On a frame that is not
    empty it stops at line 114, where [.to_series] is looked up on a Series.
    [monthly_forecast_intended] is the same function with [s] taken to be
    the Series [pd.to_datetime(df["dt"])]; lines 117-140 are shared by the
    two ([forecast_from], [monthly_series]).

    Modelling conventions.
    - A row of the input frame [df] is an [ExpenseRecord]: the columns [dt]
      (a calendar date) and [amount].
    - Numbers are exact rationals ([Qc], with Leibniz equality); the
      rounding of double precision arithmetic is outside the model.  The
      weights 0.6 and 0.4 are the rationals 3/5 and 2/5.
    - [NaN] in the [actual] column is [None].
    - A month-start timestamp is its month ordinal, [12 * year + (month-1)];
      timestamps are unbounded.
    - Python exceptions are the [Raise] results of the [result] monad.
    - A text is a [String.string]; a [dict] with text keys is a list of
      pairs in insertion order.

    The last part covers the rest of the script: the session state, the
    category form, the expense form and the forecast section. *)

From Stdlib Require Import ZArith List Lia Bool.
From Stdlib Require Import QArith Qcanon Field.
From Stdlib Require Import Permutation.
From Stdlib Require Ascii String.
Import ListNotations.
Import Ascii.AsciiSyntax String.StringSyntax.

Delimit Scope string_scope with string.
Delimit Scope char_scope with char.

Set Implicit Arguments.

(* ------------------------------------------------------------------ *)
(** ** Exceptions *)

Inductive exn : Type :=
| AttributeError  (* looking up a method the object does not have *)
| IndexError   (* indexing an empty array with [-1] *)
| ValueError.  (* negative [periods] / shape, columns of unequal length *)

Inductive result (A : Type) : Type :=
| Ok (a : A)
| Raise (e : exn).

Arguments Ok {A} a.
Arguments Raise {A} e.

Definition bind {A B : Type} (r : result A) (k : A -> result B) : result B :=
  match r with
  | Ok a => k a
  | Raise e => Raise e
  end.

Notation "x <- r ;; k" := (bind r (fun x => k))
  (at level 61, r at next level, right associativity).

(* ------------------------------------------------------------------ *)
(** ** Data model *)

Record date : Type := mkDate { year : Z; mon : Z; day : Z }.

(** A row of [df]. *)
Record ExpenseRecord : Type := mkRecord { dt : date; amount : Qc }.

(** A row of the returned frame: columns [month], [actual], [forecast]. *)
Record MonthlyPoint : Type :=
  mkPoint { month : date; actual : option Qc; forecast : Qc }.

(** The ordinal of the calendar month a date falls in, and the first day of
    the month with a given ordinal. *)
Definition month_ordinal (d : date) : Z := (12 * year d + (mon d - 1))%Z.

Definition month_start (o : Z) : date :=
  mkDate (o / 12)%Z (o mod 12 + 1)%Z 1%Z.

Definition valid_date (d : date) : bool :=
  ((1 <=? mon d) && (mon d <=? 12) && (1 <=? day d) && (day d <=? 31))%Z.

(** The calendar month after a month start. *)
Definition next_month (d : date) : date :=
  if (mon d =? 12)%Z then mkDate (year d + 1)%Z 1%Z 1%Z
  else mkDate (year d) (mon d + 1)%Z 1%Z.

(** A column of timestamps as pandas holds it: a [Series] (a column of a
    frame is one) or a [DatetimeIndex]. *)
Inductive pd_dates : Type :=
| PdSeries (v : list date)
| PdIndex (v : list date).

(** [df["dt"]]: a column of a frame is a Series. *)
Definition column_dt (df : list ExpenseRecord) : pd_dates := PdSeries (map dt df).

(** [pd.to_datetime(arg)]: a Series for a Series, a [DatetimeIndex] for an
    Index.  The dates of the rows are valid, nothing is to be parsed. *)
Definition to_datetime (arg : pd_dates) : pd_dates := arg.

(** [x.to_series(index=...)]: [to_series] is a method of [Index]; a Series
    has no attribute of that name, and the lookup raises. *)
Definition to_series (x : pd_dates) : result (list date) :=
  match x with
  | PdIndex v => Ok v
  | PdSeries _ => Raise AttributeError
  end.

(* ------------------------------------------------------------------ *)
(** ** Numeric helpers *)

Definition Zq (z : Z) : Qc := Q2Qc (inject_Z z).
Definition Nq (n : nat) : Qc := Zq (Z.of_nat n).

Definition w_trend : Qc := Q2Qc (6 # 10).
Definition w_ma : Qc := Q2Qc (4 # 10).

Definition qsum (l : list Qc) : Qc := fold_right Qcplus 0%Qc l.

(** [Series.mean]: on an empty series pandas gives [NaN]; here the total
    division of [Qc] gives 0.  [monthly_forecast] never takes the mean of
    an empty window (lemmas [window_nonempty] and [tail_nonempty]). *)
Definition mean (l : list Qc) : Qc := (qsum l / Nq (length l))%Qc.

(** [Series.tail(k)]: the last [k] elements (all of them if fewer). *)
Definition tail {A : Type} (k : nat) (l : list A) : list A :=
  skipn (length l - k) l.

(** [np.arange(lo, hi)] and [np.arange(n)]. *)
Definition arange2 (lo hi : Z) : list Z :=
  map (fun i => (lo + Z.of_nat i)%Z) (seq 0 (Z.to_nat (hi - lo))).

Definition arange (n : nat) : list Z := arange2 0 (Z.of_nat n).

(* ------------------------------------------------------------------ *)
(** ** Resampling to month starts *)

(** A time series: index (a month ordinal once resampled) and value. *)
Definition Series : Type := list (Z * Qc).

Definition index (s : Series) : list Z := map fst s.
Definition values (s : Series) : list Qc := map snd s.

(** The months from [lo] to [hi], both included. *)
Definition month_range (lo hi : Z) : list Z := arange2 lo (hi + 1).

(** The sum of the amounts of the rows that fall in month [m]. *)
Definition bin_sum (rows : Series) (m : Z) : Qc :=
  qsum (values (filter (fun r => (fst r =? m)%Z) rows)).

Definition min_index (rows : Series) (d : Z) : Z := fold_right Z.min d (index rows).
Definition max_index (rows : Series) (d : Z) : Z := fold_right Z.max d (index rows).

(** [ts.resample("MS").sum()]: one bin per month from the month of the
    earliest row to the month of the latest; an empty bin sums to 0. *)
Definition resample_sum (rows : Series) : Series :=
  match rows with
  | [] => []
  | r :: rest =>
      map (fun m => (m, bin_sum rows m))
          (month_range (min_index rest (fst r)) (max_index rest (fst r)))
  end.

Fixpoint lookup (m : Z) (s : Series) : option Qc :=
  match s with
  | [] => None
  | (k, v) :: s' => if (k =? m)%Z then Some v else lookup m s'
  end.

(** [.asfreq("MS", fill_value)]: reindex on every month between the first
    and the last index; a month that is missing takes [fill_value]. *)
Definition asfreq (s : Series) (fill_value : Qc) : Series :=
  match s with
  | [] => []
  | r :: _ =>
      map (fun m => (m, match lookup m s with Some v => v | None => fill_value end))
          (month_range (fst r) (fst (last s r)))
  end.

(** Lines 117-118: the series of monthly totals [ts], from the timestamps
    [s] and the array [df["amount"].values], row by row. *)
Definition monthly_series (s : list date) (amounts : list Qc) : Series :=
  let rows := combine (map month_ordinal s) amounts in
  asfreq (resample_sum rows) 0%Qc.

(* ------------------------------------------------------------------ *)
(** ** Least squares and moving average *)

(** [np.linalg.lstsq(A, y, rcond=None)[0]] for a matrix [A] of two columns,
    in exact arithmetic: the least-squares solution of minimum norm.
    With [G = A^T A] and [r = A^T y]: the solution of the normal equations
    when [G] is invertible; [r / trace G] (the pseudo-inverse of a matrix
    of rank one is its transpose over its squared norm) when [G] is
    singular and not zero; zero when [A] is zero.
    This is the fit without rounding.  Line 122 computes in doubles, and
    what it returns agrees with [lstsq] up to rounding only: on the totals
    100, 200, 300, 400 it returns a slope and an intercept a few units in
    the last place below 100, where [lstsq] gives 100 and 100.  Nothing
    stated here of [monthly_forecast] as written goes through [lstsq]:
    the function stops at line 114, before the fit. *)
Definition lstsq (A : list (Qc * Qc)) (y : list Qc) : Qc * Qc :=
  let g11 := qsum (map (fun r => fst r * fst r) A) in
  let g12 := qsum (map (fun r => fst r * snd r) A) in
  let g22 := qsum (map (fun r => snd r * snd r) A) in
  let r1 := qsum (map (fun p => fst (fst p) * snd p) (combine A y)) in
  let r2 := qsum (map (fun p => snd (fst p) * snd p) (combine A y)) in
  let det := g11 * g22 - g12 * g12 in
  let tr := g11 + g22 in
  if Qc_eq_dec det 0 then
    if Qc_eq_dec tr 0 then (0, 0)
    else (r1 / tr, r2 / tr)
  else ((g22 * r1 - g12 * r2) / det, (g11 * r2 - g12 * r1) / det).

(** [ts.rolling(window, min_periods=1).mean()]: at position [i] the mean of
    the last [window] values up to and including position [i]. *)
Definition rolling_mean (window : nat) (ys : list Qc) : list Qc :=
  map (fun i => mean (tail window (firstn (S i) ys))) (seq 0 (length ys)).

(** [0.6 * x + 0.4 * y] on two arrays, element by element.  numpy
    broadcasts an array of length one against the other and refuses any
    other pair of different lengths. *)
Definition blend1 (x y : Qc) : Qc := w_trend * x + w_ma * y.

Definition blend (xs ys : list Qc) : result (list Qc) :=
  if (length xs =? length ys)%nat then
    Ok (map (fun p => blend1 (fst p) (snd p)) (combine xs ys))
  else
    match xs, ys with
    | [x], _ => Ok (map (fun y => blend1 x y) ys)
    | _, [y] => Ok (map (fun x => blend1 x y) xs)
    | _, _ => Raise ValueError
    end.

(** [a * t + b] over an integer array [t]. *)
Definition line (a b : Qc) (t : list Z) : list Qc :=
  map (fun ti => a * Zq ti + b) t.

(* ------------------------------------------------------------------ *)
(** ** Partial operations *)

(** [x[-1]]. *)
Definition last_elem {A : Type} (l : list A) : result A :=
  match l with
  | [] => Raise IndexError
  | x :: l' => Ok (last l' x)
  end.

(** [pd.date_range(start, periods=periods, freq="MS")] from a month start. *)
Definition date_range (start periods : Z) : result (list Z) :=
  if (periods <? 0)%Z then Raise ValueError
  else Ok (arange2 start (start + periods)).

(** [np.full(n, v)]. *)
Definition full (n : Z) (v : Qc) : result (list Qc) :=
  if (n <? 0)%Z then Raise ValueError
  else Ok (repeat v (Z.to_nat n)).

(** [pd.DataFrame({"month": .., "actual": .., "forecast": ..})] from columns
    given as arrays: the lengths must agree. *)
Definition DataFrame (months : list Z) (actuals : list (option Qc))
    (forecasts : list Qc) : result (list (Z * option Qc * Qc)) :=
  if ((length months =? length actuals) && (length months =? length forecasts))%nat
  then Ok (combine (combine months actuals) forecasts)
  else Raise ValueError.

(** The same with the scalar [np.nan] for the [actual] column. *)
Definition DataFrame_nan (months : list Z) (forecasts : list Qc)
  : result (list (Z * option Qc * Qc)) :=
  DataFrame months (repeat None (length months)) forecasts.

(* ------------------------------------------------------------------ *)
(** ** [monthly_forecast] *)

Definition monthly_forecast (df : list ExpenseRecord) (months_ahead : Z)
  : result (list MonthlyPoint) :=
  match df with
  | [] => Ok []
  | _ :: _ =>
      s <- to_series (to_datetime (column_dt df)) ;;
      let ts := monthly_series s (map amount df) in
      let t := arange (length ts) in
      let A := map (fun ti => (Zq ti, 1%Qc)) t in
      let '(a, b) := lstsq A (values ts) in
      let trend := line a b t in
      let ma := rolling_mean 3 (values ts) in
      fitted <- blend trend ma ;;
      last_t <- last_elem t ;;
      last_month <- last_elem (index ts) ;;
      future_idx <- date_range (last_month + 1) months_ahead ;;
      let future_t := arange2 (last_t + 1) (last_t + 1 + months_ahead) in
      let future_trend := line a b future_t in
      future_ma <- full months_ahead (mean (tail 3 (values ts))) ;;
      future_forecast <- blend future_trend future_ma ;;
      hist <- DataFrame (index ts) (map Some (values ts)) fitted ;;
      fut <- DataFrame_nan future_idx future_forecast ;;
      Ok (map (fun p => mkPoint (month_start (fst (fst p))) (snd (fst p)) (snd p))
              (hist ++ fut))
  end.

(* ------------------------------------------------------------------ *)
(** ** Specification vocabulary *)

(** The total spent in the month of ordinal [m]. *)
Definition month_total (df : list ExpenseRecord) (m : Z) : Qc :=
  qsum (map amount (filter (fun r => (month_ordinal (dt r) =? m)%Z) df)).

(** [lo] is the month of the earliest record, [hi] of the latest. *)
Definition first_month (df : list ExpenseRecord) (lo : Z) : Prop :=
  (exists r, In r df /\ month_ordinal (dt r) = lo) /\
  (forall r, In r df -> (lo <= month_ordinal (dt r))%Z).

Definition last_month (df : list ExpenseRecord) (hi : Z) : Prop :=
  (exists r, In r df /\ month_ordinal (dt r) = hi) /\
  (forall r, In r df -> (month_ordinal (dt r) <= hi)%Z).

(** The points whose [actual] is known are the historical ones; this is how
    the caller tells them from the future ones (app.py, line 260). *)
Definition is_historical (p : MonthlyPoint) : bool :=
  match actual p with Some _ => true | None => false end.

Definition historical (out : list MonthlyPoint) : list MonthlyPoint :=
  filter is_historical out.

Definition future (out : list MonthlyPoint) : list MonthlyPoint :=
  filter (fun p => negb (is_historical p)) out.

Definition actual_or_zero (p : MonthlyPoint) : Qc :=
  match actual p with Some v => v | None => 0%Qc end.

(** Lines 120-140, as a function of the resampled series [ts]. *)
Definition forecast_from (ts : Series) (months_ahead : Z)
  : result (list MonthlyPoint) :=
  let t := arange (length ts) in
  let A := map (fun ti => (Zq ti, 1%Qc)) t in
  let '(a, b) := lstsq A (values ts) in
  let trend := line a b t in
  let ma := rolling_mean 3 (values ts) in
  fitted <- blend trend ma ;;
  last_t <- last_elem t ;;
  last_month <- last_elem (index ts) ;;
  future_idx <- date_range (last_month + 1) months_ahead ;;
  let future_t := arange2 (last_t + 1) (last_t + 1 + months_ahead) in
  let future_trend := line a b future_t in
  future_ma <- full months_ahead (mean (tail 3 (values ts))) ;;
  future_forecast <- blend future_trend future_ma ;;
  hist <- DataFrame (index ts) (map Some (values ts)) fitted ;;
  fut <- DataFrame_nan future_idx future_forecast ;;
  Ok (map (fun p => mkPoint (month_start (fst (fst p))) (snd (fst p)) (snd p))
          (hist ++ fut)).

(** The series [ts] of a frame whose timestamps are those of its [dt]
    column. *)
Definition frame_series (df : list ExpenseRecord) : Series :=
  monthly_series (map dt df) (map amount df).

(** [monthly_forecast] with [s] (lines 113-116) taken to be the Series
    [pd.to_datetime(df["dt"])], that is without the [.to_series] call. *)
Definition monthly_forecast_intended (df : list ExpenseRecord) (months_ahead : Z)
  : result (list MonthlyPoint) :=
  match df with
  | [] => Ok []
  | _ :: _ => forecast_from (frame_series df) months_ahead
  end.

(** The design matrix of line 121 and the fit of line 122. *)
Definition design (n : nat) : list (Qc * Qc) :=
  map (fun ti => (Zq ti, 1%Qc)) (arange n).

Definition fit (ys : list Qc) : Qc * Qc := lstsq (design (length ys)) ys.

(** The historical point at position [i] and the future point at position
    [n + j], for a series [ys] that starts in month [lo]. *)
Definition hist_point (lo : Z) (ys : list Qc) (i : nat) : MonthlyPoint :=
  mkPoint (month_start (lo + Z.of_nat i))
          (Some (nth i ys 0%Qc))
          (blend1 (fst (fit ys) * Nq i + snd (fit ys))
                  (mean (tail 3 (firstn (S i) ys)))).

Definition future_point (lo : Z) (ys : list Qc) (j : nat) : MonthlyPoint :=
  mkPoint (month_start (lo + Z.of_nat (length ys + j)))
          None
          (blend1 (fst (fit ys) * Nq (length ys + j) + snd (fit ys))
                  (mean (tail 3 ys))).

(** A series with one value per month from [lo] on, [S n] months long. *)
Definition gap_free (lo : Z) (g : nat -> Qc) (n : nat) : Series :=
  map (fun i => ((lo + Z.of_nat i)%Z, g i)) (seq 0 (S n)).

(** The first and the last month of a frame, as [resample] finds them. *)
Definition min_month (r : ExpenseRecord) (df : list ExpenseRecord) : Z :=
  min_index (map (fun r => (month_ordinal (dt r), amount r)) df) (month_ordinal (dt r)).

Definition max_month (r : ExpenseRecord) (df : list ExpenseRecord) : Z :=
  max_index (map (fun r => (month_ordinal (dt r), amount r)) df) (month_ordinal (dt r)).

(** The gap-filled series of monthly totals between two months. *)
Definition actual_series (df : list ExpenseRecord) (lo hi : Z) : list Qc :=
  map (month_total df) (month_range lo hi).

(** The frame [monthly_forecast] returns, written out point by point. *)
Definition expected (lo : Z) (ys : list Qc) (k : Z) : list MonthlyPoint :=
  map (hist_point lo ys) (seq 0 (length ys))
  ++ map (future_point lo ys) (seq 0 (Z.to_nat k)).

(** Dates in calendar order. *)
Definition date_lt (d d' : date) : Prop :=
  (year d < year d' \/
   (year d = year d' /\
    (mon d < mon d' \/ (mon d = mon d' /\ day d < day d'))))%Z.

(** One record a month over four consecutive months. *)
Definition four_months (r1 r2 r3 r4 : ExpenseRecord) : Prop :=
  month_ordinal (dt r2) = (month_ordinal (dt r1) + 1)%Z /\
  month_ordinal (dt r3) = (month_ordinal (dt r1) + 2)%Z /\
  month_ordinal (dt r4) = (month_ordinal (dt r1) + 3)%Z.

(* ------------------------------------------------------------------ *)
(** ** Sample frames *)

Definition jan_2024 : Z := 24288.

Definition one_record : list ExpenseRecord :=
  [mkRecord (mkDate 2024 1 15) (Zq 100)].

(** One record a month from January to April 2024, not in date order. *)
Definition linear_records : list ExpenseRecord :=
  [mkRecord (mkDate 2024 3 9) (Zq 300); mkRecord (mkDate 2024 1 15) (Zq 100);
   mkRecord (mkDate 2024 4 30) (Zq 400); mkRecord (mkDate 2024 2 1) (Zq 200)].

(** Two records in January, none in February and March, one in April. *)
Definition sparse_records : list ExpenseRecord :=
  [mkRecord (mkDate 2024 4 2) (Zq 50); mkRecord (mkDate 2024 1 15) (Zq 100);
   mkRecord (mkDate 2024 1 20) (Zq 7)].

(** Totals 400 and 100 in November and December 2024. *)
Definition falling_records : list ExpenseRecord :=
  [mkRecord (mkDate 2024 11 15) (Zq 400); mkRecord (mkDate 2024 12 3) (Zq 100)].

(* ------------------------------------------------------------------ *)
(** ** The session state (lines 30-38, 55-57, 146-149) *)

(** A Python [dict] with text keys, in insertion order. *)
Definition dict (V : Type) : Type := list (String.string * V).

(** [d.get(k)]: [None] when [k] is not a key. *)
Fixpoint dict_get {V : Type} (k : String.string) (d : dict V) : option V :=
  match d with
  | [] => None
  | (k', v) :: d' => if String.eqb k' k then Some v else dict_get k d'
  end.

(** [k in d]. *)
Definition dict_mem {V : Type} (k : String.string) (d : dict V) : bool :=
  match dict_get k d with Some _ => true | None => false end.

(** [d[k] = v]: the value of an existing key is replaced where it stands,
    a new key goes to the end. *)
Fixpoint dict_set {V : Type} (k : String.string) (v : V) (d : dict V) : dict V :=
  match d with
  | [] => [(k, v)]
  | (k', v') :: d' =>
      if String.eqb k' k then (k, v) :: d' else (k', v') :: dict_set k v d'
  end.

Definition dict_keys {V : Type} (d : dict V) : list String.string := map fst d.

(** [st.session_state]: a value is a Python object or [None]. *)
Definition session (V : Type) : Type := dict (option V).

(** The [defaults] of line 31. *)
Definition defaults {V : Type} : session V :=
  [ ("user"%string, None); ("categories"%string, None); ("expenses"%string, None) ].

(** Lines 30-38. *)
Definition ensure_session_state {V : Type} (session_state : session V) : session V :=
  fold_left
    (fun st kv => if dict_mem (fst kv) st then st else dict_set (fst kv) (snd kv) st)
    defaults session_state.

(** Lines 55-57.  [remote] is what [supabase.auth.sign_out()] does: it
    returns or it raises. *)
Definition sign_out {V : Type} (remote : result unit) (session_state : session V)
  : result (session V) :=
  _ <- remote ;;
  Ok (dict_set "user"%string None session_state).

(** [st.session_state.user is None] (line 149): reading an attribute that
    is not in the session state raises. *)
Definition user_is_none {V : Type} (session_state : session V) : result bool :=
  match dict_get "user"%string session_state with
  | None => Raise AttributeError
  | Some None => Ok true
  | Some (Some _) => Ok false
  end.

(** What a run of the script shows: the login form, after which [st.stop()]
    ends the run (lines 149-181), or the pages of a logged-in user. *)
Inductive page : Type := LoginForm | LoggedIn.

(** Lines 146-149: the start of every run of the script. *)
Definition start_run {V : Type} (session_state : session V)
  : result (page * session V) :=
  let st := ensure_session_state session_state in
  none <- user_is_none st ;;
  Ok (if none then LoginForm else LoggedIn, st).

(* ------------------------------------------------------------------ *)
(** ** Categories (lines 195-206, 219-229 and 86-93) *)

(** [s.lstrip()], [s.rstrip()] and [s.strip()], for the characters that
    [is_space] tells to be white space. *)
Fixpoint lstrip (is_space : Ascii.ascii -> bool) (s : String.string) : String.string :=
  match s with
  | String.EmptyString => String.EmptyString
  | String.String c s' => if is_space c then lstrip is_space s' else s
  end.

Fixpoint rstrip (is_space : Ascii.ascii -> bool) (s : String.string) : String.string :=
  match s with
  | String.EmptyString => String.EmptyString
  | String.String c s' =>
      match rstrip is_space s' with
      | String.EmptyString =>
          if is_space c then String.EmptyString else String.String c String.EmptyString
      | t => String.String c t
      end
  end.

Definition strip (is_space : Ascii.ascii -> bool) (s : String.string) : String.string :=
  rstrip is_space (lstrip is_space s).

(** Lines 200-202: the name handed to [add_category] when "Adicionar" is
    pressed, if any ([if new_cat.strip(): add_category(.., new_cat.strip())]). *)
Definition category_to_add (is_space : Ascii.ascii -> bool) (new_cat : String.string)
  : option String.string :=
  match strip is_space new_cat with
  | String.EmptyString => None
  | name => Some name
  end.

(** A row of the categories frame. *)
Record Category : Type := mkCategory { category_id : Z; name : String.string }.

(** Line 219: [{row["name"]: row["id"] for _, row in categories.iterrows()}],
    and [{}] for an empty frame. *)
Definition cat_options (categories : list Category) : dict Z :=
  fold_left (fun d row => dict_set (name row) (category_id row) d) categories [].

(** Line 220: the options of the select box. *)
Definition selectbox_options (options : dict Z) : list String.string :=
  match options with
  | [] => ["(crie uma categoria)"%string]
  | _ :: _ => dict_keys options
  end.

(** Line 90: [int(category_id) if category_id else None]; 0 is falsy. *)
Definition stored_category (category_id : option Z) : option Z :=
  match category_id with
  | None => None
  | Some c => if (c =? 0)%Z then None else Some c
  end.

(** What pressing "Salvar" does (lines 224-229): an error message when there
    is no category, a [KeyError] when [cat] is not a key of [cat_options],
    else the category stored with the expense. *)
Inductive submitted : Type :=
| NoCategory
| KeyNotFound
| Saved (category : option Z).

Definition submit (options : dict Z) (cat : String.string) : submitted :=
  match options with
  | [] => NoCategory
  | _ :: _ =>
      match dict_get cat options with
      | None => KeyNotFound
      | Some c => Saved (stored_category (Some c))
      end
  end.

(* ------------------------------------------------------------------ *)
(** ** The forecast section (lines 251-263) *)

(** [s.replace(old, new)] for [old] and [new] of one character each: every
    occurrence is replaced. *)
Fixpoint str_replace (old new : Ascii.ascii) (s : String.string) : String.string :=
  match s with
  | String.EmptyString => String.EmptyString
  | String.String c s' =>
      String.String (if Ascii.eqb c old then new else c) (str_replace old new s')
  end.

(** The three [replace] of line 263. *)
Definition swap_separators (s : String.string) : String.string :=
  str_replace "X"%char "."%char
    (str_replace "."%char ","%char (str_replace ","%char "X"%char s)).

(** Line 263: the text written for a future month.  [label] is
    [idx.strftime('%b/%Y')] and [number] is [f"{val:,.2f}"]. *)
Definition forecast_line (label CURRENCY number : String.string) : String.string :=
  swap_separators
    (String.append "- "
       (String.append label
          (String.append ": "
             (String.append CURRENCY (String.append " " number))))).

(** What the section shows. *)
Inductive forecast_view : Type :=
| Info (message : String.string)
| Forecast (chart : list (date * Qc)) (lines : list String.string).

(** Lines 253-263, for the full history [hist] that [fetch_expenses]
    returned.  [strftime] and [format_2f] stand for the two formatting
    calls of line 263. *)
Definition forecast_section (strftime : date -> String.string)
    (format_2f : Qc -> String.string) (CURRENCY : String.string)
    (hist : list ExpenseRecord) : result forecast_view :=
  forecast_df <- monthly_forecast hist 3 ;;
  match forecast_df with
  | [] => Ok (Info "Cadastre alguns gastos para gerar a previsão."%string)
  | _ :: _ =>
      Ok (Forecast
            (map (fun p => (month p, forecast p)) forecast_df)
            (map (fun p => forecast_line (strftime (month p)) CURRENCY
                                         (format_2f (forecast p)))
                 (future forecast_df)))
  end.

(** Every character of a text passes [p]. *)
Fixpoint all_chars (p : Ascii.ascii -> bool) (s : String.string) : bool :=
  match s with
  | String.EmptyString => true
  | String.String c s' => p c && all_chars p s'
  end.

(** A character of a text. *)
Fixpoint occurs (c : Ascii.ascii) (s : String.string) : bool :=
  match s with
  | String.EmptyString => false
  | String.String c' s' => Ascii.eqb c' c || occurs c s'
  end.

(** What line 263 makes of one character. *)
Definition swap_char (c : Ascii.ascii) : Ascii.ascii :=
  if Ascii.eqb c ","%char then "."%char
  else if Ascii.eqb c "."%char then ","%char
  else if Ascii.eqb c "X"%char then "."%char
  else c.

Fixpoint string_map (f : Ascii.ascii -> Ascii.ascii) (s : String.string) : String.string :=
  match s with
  | String.EmptyString => String.EmptyString
  | String.String c s' => String.String (f c) (string_map f s')
  end.

(** The first and the last character of a text. *)
Definition first_char (s : String.string) : option Ascii.ascii :=
  match s with
  | String.EmptyString => None
  | String.String c _ => Some c
  end.

Fixpoint last_char (s : String.string) : option Ascii.ascii :=
  match s with
  | String.EmptyString => None
  | String.String c String.EmptyString => Some c
  | String.String _ s' => last_char s'
  end.

(** A text that holds no comma, no period and no [X]. *)
Definition plain (s : String.string) : bool :=
  negb (occurs ","%char s) && negb (occurs "."%char s) && negb (occurs "X"%char s).

(* ------------------------------------------------------------------ *)
(** ** Sample data for the rest of the script *)

(** A session with a user stored and nothing else. *)
Definition logged_in_session : session nat := [("user"%string, Some 7%nat)].

(** Two categories of one name, and a third. *)
Definition casa_1 : Category := mkCategory 1 "Casa"%string.
Definition casa_2 : Category := mkCategory 2 "Casa"%string.
Definition lazer_3 : Category := mkCategory 3 "Lazer"%string.

(** The blank as the only white space. *)
Definition is_blank (c : Ascii.ascii) : bool := Ascii.eqb c " "%char.

(* ------------------------------------------------------------------ *)
(** ** Lists and ranges *)

Lemma length_arange2 lo hi : length (arange2 lo hi) = Z.to_nat (hi - lo).
Proof. unfold arange2. now rewrite length_map, length_seq. Qed.

Lemma arange2_shift lo len :
  (0 <= len)%Z ->
  arange2 lo (lo + len) = map (fun i => (lo + Z.of_nat i)%Z) (seq 0 (Z.to_nat len)).
Proof.
  intros _. unfold arange2. now replace (lo + len - lo)%Z with len by lia.
Qed.

Lemma arange_seq n : arange n = map Z.of_nat (seq 0 n).
Proof.
  unfold arange, arange2. rewrite Z.sub_0_r, Nat2Z.id.
  apply map_ext. intros i. lia.
Qed.

Lemma In_arange2 lo hi m : In m (arange2 lo hi) <-> (lo <= m < hi)%Z.
Proof.
  unfold arange2. rewrite in_map_iff. split.
  - intros (i & <- & Hi). apply in_seq in Hi. lia.
  - intros H. exists (Z.to_nat (m - lo)). split; [lia|]. apply in_seq. lia.
Qed.

Lemma combine_map_same {A B C : Type} (f : A -> B) (g : A -> C) (l : list A) :
  combine (map f l) (map g l) = map (fun x => (f x, g x)) l.
Proof. induction l as [|x l IH]; simpl; [reflexivity | now rewrite IH]. Qed.

Lemma repeat_map_seq {A : Type} (v : A) n : repeat v n = map (fun _ => v) (seq 0 n).
Proof.
  generalize 0%nat. induction n as [|n IH]; intros s; simpl; [reflexivity|].
  now rewrite (IH (S s)).
Qed.

Lemma last_elem_snoc {A : Type} (l : list A) (x : A) : last_elem (l ++ [x]) = Ok x.
Proof.
  destruct l as [|y l]; simpl; [reflexivity|].
  f_equal. revert y. induction l as [|z l IH]; intros y; simpl; [reflexivity|].
  destruct (l ++ [x]) eqn:E; [now destruct l | apply IH].
Qed.

Lemma last_elem_map_seq {A : Type} (f : nat -> A) n :
  last_elem (map f (seq 0 (S n))) = Ok (f n).
Proof. rewrite seq_S, map_app. simpl. apply last_elem_snoc. Qed.

Lemma nth_map_seq {A : Type} (f : nat -> A) (d : A) n i :
  (i < n)%nat -> nth i (map f (seq 0 n)) d = f i.
Proof.
  intros Hi. rewrite (nth_indep _ d (f 0%nat)) by now rewrite length_map, length_seq.
  rewrite (map_nth f). now rewrite seq_nth.
Qed.

(* ------------------------------------------------------------------ *)
(** ** The frame assembled from a gap-free series *)

Lemma blend_same_length xs ys :
  length xs = length ys ->
  blend xs ys = Ok (map (fun p => blend1 (fst p) (snd p)) (combine xs ys)).
Proof. intros H. unfold blend. now rewrite H, Nat.eqb_refl. Qed.

Lemma DataFrame_same_length months actuals forecasts :
  length months = length actuals -> length months = length forecasts ->
  DataFrame months actuals forecasts = Ok (combine (combine months actuals) forecasts).
Proof. intros H1 H2. unfold DataFrame. now rewrite <- H1, <- H2, Nat.eqb_refl. Qed.

(** Lines 117-140 are what [monthly_forecast] goes on with after line 116. *)
Lemma monthly_forecast_after_line_116 r df k :
  monthly_forecast (r :: df) k =
  (s <- to_series (to_datetime (column_dt (r :: df))) ;;
   forecast_from (monthly_series s (map amount (r :: df))) k).
Proof. reflexivity. Qed.

(** On a frame that is not empty, line 114 raises. *)
Lemma monthly_forecast_raises df k :
  df <> [] -> monthly_forecast df k = Raise AttributeError.
Proof. destruct df; [congruence | reflexivity]. Qed.

Lemma intended_cons r df k :
  monthly_forecast_intended (r :: df) k = forecast_from (frame_series (r :: df)) k.
Proof. reflexivity. Qed.

Lemma index_gap_free lo g n :
  index (gap_free lo g n) = map (fun i => (lo + Z.of_nat i)%Z) (seq 0 (S n)).
Proof. unfold index, gap_free. now rewrite map_map. Qed.

Lemma values_gap_free lo g n : values (gap_free lo g n) = map g (seq 0 (S n)).
Proof. unfold values, gap_free. now rewrite map_map. Qed.

Lemma length_gap_free lo g n : length (gap_free lo g n) = S n.
Proof. unfold gap_free. now rewrite length_map, length_seq. Qed.

Lemma forecast_from_gap_free lo g n k :
  (0 <= k)%Z ->
  let ys := values (gap_free lo g n) in
  forecast_from (gap_free lo g n) k =
  Ok (map (hist_point lo ys) (seq 0 (length ys))
      ++ map (future_point lo ys) (seq 0 (Z.to_nat k))).
Proof.
  intros Hk ys.
  assert (Hlen : length ys = S n).
  { unfold ys. now rewrite values_gap_free, length_map, length_seq. }
  unfold forecast_from.
  rewrite length_gap_free, index_gap_free.
  fold ys. fold (design (S n)). rewrite <- Hlen at 1. fold (fit ys).
  destruct (fit ys) as [a b] eqn:Hfit.
  rewrite arange_seq.
  unfold line, rolling_mean. rewrite Hlen, map_map.
  rewrite blend_same_length by now rewrite !length_map.
  rewrite combine_map_same, map_map. cbn [bind fst snd].
  rewrite !last_elem_map_seq. cbn [bind].
  unfold date_range, full.
  destruct (k <? 0)%Z eqn:Hneg; [apply Z.ltb_lt in Hneg; lia|]. cbn [bind].
  rewrite !arange2_shift by assumption.
  rewrite map_map, repeat_map_seq.
  rewrite blend_same_length by now rewrite !length_map.
  rewrite combine_map_same, map_map. cbn [bind fst snd].
  unfold DataFrame_nan.
  rewrite DataFrame_same_length;
    [ | unfold ys; now rewrite values_gap_free, !length_map
      | now rewrite !length_map ].
  rewrite DataFrame_same_length;
    [ | now rewrite repeat_length | now rewrite !length_map ].
  cbn [bind]. f_equal. rewrite map_app. f_equal.
  - unfold ys at 1. rewrite values_gap_free, map_map.
    rewrite !combine_map_same, map_map. cbn [fst snd].
    apply map_ext_in. intros i Hi. apply in_seq in Hi.
    unfold hist_point. rewrite Hfit. cbn [fst snd].
    f_equal. f_equal. unfold ys. rewrite values_gap_free.
    symmetry. apply nth_map_seq. lia.
  - rewrite length_map, length_seq, repeat_map_seq.
    rewrite !combine_map_same, map_map. cbn [fst snd].
    apply map_ext. intros j. unfold future_point. rewrite Hfit, Hlen. cbn [fst snd].
    unfold Nq.
    replace (Z.of_nat (S n + j)) with (Z.of_nat n + 1 + Z.of_nat j)%Z by lia.
    now rewrite !Z.add_assoc.
Qed.

(* ------------------------------------------------------------------ *)
(** ** Resampling yields a gap-free series *)

Lemma min_index_spec rows d :
  (min_index rows d <= d)%Z /\
  (forall r, In r rows -> (min_index rows d <= fst r)%Z) /\
  (min_index rows d = d \/ exists r, In r rows /\ fst r = min_index rows d).
Proof.
  unfold min_index, index.
  induction rows as [|x rows (IH1 & IH2 & IH3)]; simpl.
  - split; [lia|]. split; [tauto | now left].
  - split; [lia|]. split.
    + intros r [<- | Hr]; [lia|]. specialize (IH2 r Hr). lia.
    + destruct (Z.min_spec (fst x) (fold_right Z.min d (map fst rows)))
        as [[_ ->] | [_ ->]].
      * right. exists x. auto.
      * destruct IH3 as [-> | (r & Hr & Hm)]; [now left|].
        right. exists r. auto.
Qed.

Lemma max_index_spec rows d :
  (d <= max_index rows d)%Z /\
  (forall r, In r rows -> (fst r <= max_index rows d)%Z) /\
  (max_index rows d = d \/ exists r, In r rows /\ fst r = max_index rows d).
Proof.
  unfold max_index, index.
  induction rows as [|x rows (IH1 & IH2 & IH3)]; simpl.
  - split; [lia|]. split; [tauto | now left].
  - split; [lia|]. split.
    + intros r [<- | Hr]; [lia|]. specialize (IH2 r Hr). lia.
    + destruct (Z.max_spec (fst x) (fold_right Z.max d (map fst rows)))
        as [[_ ->] | [_ ->]].
      * destruct IH3 as [-> | (r & Hr & Hm)]; [now left|].
        right. exists r. auto.
      * right. exists x. auto.
Qed.

Lemma month_range_seq lo hi :
  (lo <= hi)%Z ->
  month_range lo hi =
  map (fun i => (lo + Z.of_nat i)%Z) (seq 0 (S (Z.to_nat (hi - lo)))).
Proof.
  intros H. unfold month_range, arange2.
  now replace (Z.to_nat (hi + 1 - lo)) with (S (Z.to_nat (hi - lo))) by lia.
Qed.

Lemma resample_sum_gap_free r rest :
  let rows := r :: rest in
  let lo := min_index rest (fst r) in
  let hi := max_index rest (fst r) in
  resample_sum rows =
  gap_free lo (fun i => bin_sum rows (lo + Z.of_nat i)) (Z.to_nat (hi - lo)).
Proof.
  intros rows lo hi. unfold resample_sum, rows. fold lo hi.
  rewrite month_range_seq.
  - unfold gap_free. now rewrite map_map.
  - pose proof (min_index_spec rest (fst r)) as (? & _).
    pose proof (max_index_spec rest (fst r)) as (? & _).
    unfold lo, hi. lia.
Qed.

Lemma lookup_gap_free_from lo g s len i :
  (s <= i < s + len)%nat ->
  lookup (lo + Z.of_nat i)
         (map (fun j => ((lo + Z.of_nat j)%Z, g j)) (seq s len)) = Some (g i).
Proof.
  revert s. induction len as [|len IH]; intros s Hi; [lia|].
  simpl. destruct (lo + Z.of_nat s =? lo + Z.of_nat i)%Z eqn:E.
  - apply Z.eqb_eq in E. now replace s with i by lia.
  - apply Z.eqb_neq in E. apply IH. assert (s <> i) by (intros ->; apply E; lia). lia.
Qed.

(** On a series that is already gap-free, [asfreq] changes nothing. *)
Lemma asfreq_gap_free lo g n fill :
  asfreq (gap_free lo g n) fill = gap_free lo g n.
Proof.
  unfold asfreq.
  destruct (gap_free lo g n) as [|r s] eqn:E; [reflexivity|].
  assert (Hr : fst r = lo).
  { unfold gap_free in E. simpl in E. injection E as <- _. simpl. lia. }
  assert (Hl : fst (last (r :: s) r) = (lo + Z.of_nat n)%Z).
  { rewrite <- E. unfold gap_free. rewrite seq_S, map_app. simpl map at 2.
    now rewrite last_last. }
  rewrite Hr, Hl, month_range_seq by lia.
  replace (Z.to_nat (lo + Z.of_nat n - lo)) with n by lia.
  rewrite map_map, <- E. unfold gap_free at 2.
  apply map_ext_in. intros i Hi. apply in_seq in Hi.
  unfold gap_free. rewrite lookup_gap_free_from by lia. reflexivity.
Qed.

Lemma bin_sum_month_total df m :
  bin_sum (map (fun r => (month_ordinal (dt r), amount r)) df) m = month_total df m.
Proof.
  unfold bin_sum, month_total, values. f_equal.
  induction df as [|r df IH]; simpl; [reflexivity|].
  destruct (month_ordinal (dt r) =? m)%Z; simpl; now rewrite IH.
Qed.

Lemma rows_of_frame (df : list ExpenseRecord) :
  combine (map month_ordinal (map dt df)) (map amount df)
  = map (fun r => (month_ordinal (dt r), amount r)) df.
Proof. rewrite map_map. apply combine_map_same. Qed.

Lemma monthly_series_gap_free r df :
  frame_series (r :: df) =
  gap_free (min_month r df)
           (fun i => month_total (r :: df) (min_month r df + Z.of_nat i))
           (Z.to_nat (max_month r df - min_month r df)).
Proof.
  unfold frame_series, monthly_series. rewrite rows_of_frame, map_cons.
  rewrite resample_sum_gap_free, asfreq_gap_free. cbn [fst].
  fold (min_month r df) (max_month r df).
  unfold gap_free. apply map_ext. intros i.
  f_equal. apply (bin_sum_month_total (r :: df)).
Qed.

Lemma min_month_first r df : first_month (r :: df) (min_month r df).
Proof.
  unfold first_month, min_month.
  set (rows := map (fun r => (month_ordinal (dt r), amount r)) df).
  destruct (min_index_spec rows (month_ordinal (dt r))) as (H1 & H2 & H3).
  split.
  - destruct H3 as [-> | (x & Hx & Hm)].
    + exists r. split; [now left | reflexivity].
    + unfold rows in Hx. apply in_map_iff in Hx. destruct Hx as (r' & <- & Hr').
      exists r'. split; [now right | exact Hm].
  - intros r' [<- | Hr']; [exact H1|].
    apply (H2 (month_ordinal (dt r'), amount r')).
    unfold rows. apply in_map_iff. now exists r'.
Qed.

Lemma max_month_last r df : last_month (r :: df) (max_month r df).
Proof.
  unfold last_month, max_month.
  set (rows := map (fun r => (month_ordinal (dt r), amount r)) df).
  destruct (max_index_spec rows (month_ordinal (dt r))) as (H1 & H2 & H3).
  split.
  - destruct H3 as [-> | (x & Hx & Hm)].
    + exists r. split; [now left | reflexivity].
    + unfold rows in Hx. apply in_map_iff in Hx. destruct Hx as (r' & <- & Hr').
      exists r'. split; [now right | exact Hm].
  - intros r' [<- | Hr']; [exact H1|].
    apply (H2 (month_ordinal (dt r'), amount r')).
    unfold rows. apply in_map_iff. now exists r'.
Qed.

Lemma first_month_unique df lo lo' : first_month df lo -> first_month df lo' -> lo = lo'.
Proof.
  intros ((r & Hr & <-) & H1) ((r' & Hr' & <-) & H2).
  specialize (H1 r' Hr'). specialize (H2 r Hr). lia.
Qed.

Lemma last_month_unique df hi hi' : last_month df hi -> last_month df hi' -> hi = hi'.
Proof.
  intros ((r & Hr & <-) & H1) ((r' & Hr' & <-) & H2).
  specialize (H1 r' Hr'). specialize (H2 r Hr). lia.
Qed.

Lemma first_le_last df lo hi : first_month df lo -> last_month df hi -> (lo <= hi)%Z.
Proof. intros ((r & Hr & <-) & _) (_ & H2). now apply H2. Qed.

(* ------------------------------------------------------------------ *)
(** ** The shape of the output *)

Lemma length_actual_series df lo hi :
  (lo <= hi)%Z -> length (actual_series df lo hi) = S (Z.to_nat (hi - lo)).
Proof.
  intros H. unfold actual_series.
  now rewrite month_range_seq, !length_map, length_seq.
Qed.

Lemma nth_actual_series df lo hi i :
  (lo <= hi)%Z -> (i <= Z.to_nat (hi - lo))%nat ->
  nth i (actual_series df lo hi) 0%Qc = month_total df (lo + Z.of_nat i).
Proof.
  intros H Hi. unfold actual_series.
  rewrite month_range_seq, map_map by assumption.
  apply (nth_map_seq (fun j => month_total df (lo + Z.of_nat j))). lia.
Qed.

Lemma monthly_series_values df lo hi :
  first_month df lo -> last_month df hi ->
  values (frame_series df) = actual_series df lo hi.
Proof.
  intros Hlo Hhi. destruct df as [|r df].
  { destruct Hlo as ((? & [] & _) & _). }
  rewrite (first_month_unique Hlo (min_month_first r df)).
  rewrite (last_month_unique Hhi (max_month_last r df)).
  rewrite monthly_series_gap_free, values_gap_free.
  unfold actual_series. rewrite month_range_seq, map_map; [reflexivity|].
  apply (first_le_last (min_month_first r df) (max_month_last r df)).
Qed.

Lemma intended_shape df k lo hi :
  first_month df lo -> last_month df hi -> (0 <= k)%Z ->
  monthly_forecast_intended df k = Ok (expected lo (actual_series df lo hi) k).
Proof.
  intros Hlo Hhi Hk.
  rewrite <- (monthly_series_values Hlo Hhi).
  destruct df as [|r df].
  { destruct Hlo as ((? & [] & _) & _). }
  rewrite intended_cons.
  rewrite (first_month_unique Hlo (min_month_first r df)).
  rewrite monthly_series_gap_free.
  now apply forecast_from_gap_free.
Qed.

Lemma intended_negative df k :
  df <> [] -> (k < 0)%Z -> monthly_forecast_intended df k = Raise ValueError.
Proof.
  intros Hdf Hk. destruct df as [|r df]; [congruence|].
  rewrite intended_cons, monthly_series_gap_free.
  unfold forecast_from.
  destruct (lstsq _ _) as [a b].
  rewrite length_gap_free, index_gap_free, arange_seq.
  unfold line, rolling_mean.
  rewrite blend_same_length
    by now rewrite values_gap_free, !length_map, !length_seq.
  cbn [bind]. rewrite !last_elem_map_seq. cbn [bind].
  unfold date_range. apply Z.ltb_lt in Hk. now rewrite Hk.
Qed.

Lemma nonempty_first_last (df : list ExpenseRecord) :
  df <> [] -> exists lo hi, first_month df lo /\ last_month df hi.
Proof.
  destruct df as [|r df]; [congruence|]. intros _.
  exists (min_month r df), (max_month r df).
  split; [apply min_month_first | apply max_month_last].
Qed.

(** *** Reading the expected frame *)

Lemma length_expected lo ys k :
  length (expected lo ys k) = (length ys + Z.to_nat k)%nat.
Proof. unfold expected. now rewrite length_app, !length_map, !length_seq. Qed.

Lemma nth_error_map_seq {A : Type} (f : nat -> A) n i :
  (i < n)%nat -> nth_error (map f (seq 0 n)) i = Some (f i).
Proof.
  intros Hi. rewrite nth_error_map, nth_error_nth' with (d := 0%nat)
    by now rewrite length_seq.
  now rewrite seq_nth.
Qed.

Lemma nth_error_expected_hist lo ys k i :
  (i < length ys)%nat ->
  nth_error (expected lo ys k) i = Some (hist_point lo ys i).
Proof.
  intros Hi. unfold expected.
  rewrite nth_error_app1 by now rewrite length_map, length_seq.
  now apply nth_error_map_seq.
Qed.

Lemma nth_error_expected_future lo ys k j :
  (j < Z.to_nat k)%nat ->
  nth_error (expected lo ys k) (length ys + j) = Some (future_point lo ys j).
Proof.
  intros Hj. unfold expected.
  rewrite nth_error_app2 by (rewrite length_map, length_seq; lia).
  rewrite length_map, length_seq.
  replace (length ys + j - length ys)%nat with j by lia.
  now apply nth_error_map_seq.
Qed.

Lemma filter_map_true {A B : Type} (p : B -> bool) (f : A -> B) l :
  (forall x, p (f x) = true) -> filter p (map f l) = map f l.
Proof.
  intros H. induction l as [|x l IH]; simpl; [reflexivity|]. now rewrite H, IH.
Qed.

Lemma filter_map_false {A B : Type} (p : B -> bool) (f : A -> B) l :
  (forall x, p (f x) = false) -> filter p (map f l) = [].
Proof.
  intros H. induction l as [|x l IH]; simpl; [reflexivity|]. now rewrite H, IH.
Qed.

Lemma historical_expected lo ys k :
  historical (expected lo ys k) = map (hist_point lo ys) (seq 0 (length ys)).
Proof.
  unfold historical, expected. rewrite filter_app.
  rewrite filter_map_true, filter_map_false by reflexivity.
  apply app_nil_r.
Qed.

Lemma future_expected lo ys k :
  future (expected lo ys k) = map (future_point lo ys) (seq 0 (Z.to_nat k)).
Proof.
  unfold future, expected. rewrite filter_app.
  rewrite filter_map_false, filter_map_true by reflexivity.
  reflexivity.
Qed.

(* ------------------------------------------------------------------ *)
(** ** The calendar *)

Lemma month_start_ordinal d :
  valid_date d = true ->
  month_start (month_ordinal d) = mkDate (year d) (mon d) 1.
Proof.
  unfold valid_date, month_start, month_ordinal. intros H.
  apply andb_prop in H as [H _]. apply andb_prop in H as [H _].
  apply andb_prop in H as [H1 H2].
  apply Z.leb_le in H1, H2.
  assert (Hq : ((12 * year d + (mon d - 1)) / 12 = year d)%Z).
  { symmetry. apply (Z.div_unique _ 12 (year d) (mon d - 1)); lia. }
  assert (Hr : ((12 * year d + (mon d - 1)) mod 12 = mon d - 1)%Z).
  { symmetry. apply (Z.mod_unique _ 12 (year d) (mon d - 1)); lia. }
  rewrite Hq, Hr. f_equal. lia.
Qed.

Lemma month_ordinal_start o : month_ordinal (month_start o) = o.
Proof.
  unfold month_ordinal, month_start. cbn [year mon].
  pose proof (Z.div_mod o 12). lia.
Qed.

Lemma next_month_start o : next_month (month_start o) = month_start (o + 1).
Proof.
  unfold next_month, month_start. cbn [year mon].
  pose proof (Z.div_mod o 12 ltac:(lia)) as E.
  pose proof (Z.mod_pos_bound o 12 ltac:(lia)) as B.
  destruct (o mod 12 + 1 =? 12)%Z eqn:T.
  - apply Z.eqb_eq in T.
    assert (Hq : ((o + 1) / 12 = o / 12 + 1)%Z).
    { symmetry. apply (Z.div_unique _ 12 _ 0); lia. }
    assert (Hr : ((o + 1) mod 12 = 0)%Z).
    { symmetry. apply (Z.mod_unique _ 12 (o / 12 + 1) 0); lia. }
    now rewrite Hq, Hr.
  - apply Z.eqb_neq in T.
    assert (Hq : ((o + 1) / 12 = o / 12)%Z).
    { symmetry. apply (Z.div_unique _ 12 _ (o mod 12 + 1)); lia. }
    assert (Hr : ((o + 1) mod 12 = o mod 12 + 1)%Z).
    { symmetry. apply (Z.mod_unique _ 12 (o / 12) (o mod 12 + 1)); lia. }
    now rewrite Hq, Hr.
Qed.

Lemma month_start_lt o o' : (o < o')%Z -> date_lt (month_start o) (month_start o').
Proof.
  intros H. unfold date_lt, month_start. cbn [year mon day].
  pose proof (Z.div_mod o 12 ltac:(lia)).
  pose proof (Z.div_mod o' 12 ltac:(lia)).
  pose proof (Z.mod_pos_bound o 12 ltac:(lia)).
  pose proof (Z.mod_pos_bound o' 12 ltac:(lia)).
  lia.
Qed.

Lemma seq_from n k : seq n k = map (Nat.add n) (seq 0 k).
Proof.
  revert n. induction k as [|k IH]; intros n; simpl; [reflexivity|].
  rewrite Nat.add_0_r. f_equal. rewrite (IH (S n)), (IH 1%nat), map_map.
  apply map_ext. intros j. lia.
Qed.

Lemma nth_error_map_seq_inv {A : Type} (f : nat -> A) n i x :
  nth_error (map f (seq 0 n)) i = Some x -> x = f i /\ (i < n)%nat.
Proof.
  intros H.
  assert (Hi : (i < n)%nat).
  { assert (Hn : nth_error (map f (seq 0 n)) i <> None) by congruence.
    apply nth_error_Some in Hn. now rewrite length_map, length_seq in Hn. }
  rewrite nth_error_map_seq in H by assumption. split; [congruence | assumption].
Qed.

Lemma months_expected df lo hi k :
  (lo <= hi)%Z -> (0 <= k)%Z ->
  map month (expected lo (actual_series df lo hi) k)
  = map month_start (month_range lo (hi + k)).
Proof.
  intros Hle Hk. unfold expected.
  rewrite length_actual_series by assumption.
  rewrite month_range_seq by lia.
  replace (S (Z.to_nat (hi + k - lo)))
    with (S (Z.to_nat (hi - lo)) + Z.to_nat k)%nat by lia.
  rewrite seq_app, !map_app, !map_map. f_equal.
  cbn [Nat.add]. rewrite (seq_from (S _)), map_map.
  apply map_ext. intros j. unfold future_point. cbn [month].
  now rewrite length_actual_series.
Qed.

Lemma month_total_none df m :
  (forall r, In r df -> month_ordinal (dt r) <> m) -> month_total df m = 0%Qc.
Proof.
  intros H. unfold month_total.
  replace (filter _ df) with (@nil ExpenseRecord); [reflexivity|].
  symmetry. induction df as [|r df IH]; simpl; [reflexivity|].
  destruct (month_ordinal (dt r) =? m)%Z eqn:E.
  - apply Z.eqb_eq in E. exfalso. apply (H r); simpl; auto.
  - apply IH. intros r' Hr'. apply H. now right.
Qed.

Ltac pick_record :=
  simpl;
  ((left; reflexivity) + (right; left; reflexivity)
   + (right; right; left; reflexivity)
   + (right; right; right; left; reflexivity)).

Ltac solve_first_last :=
  split;
  [ eexists; split; [ pick_record | reflexivity ]
  | intros ? H; simpl in H;
    repeat (destruct H as [H | H]; [subst; vm_compute; congruence | ]);
    contradiction ].

Lemma sparse_first : first_month sparse_records jan_2024.
Proof. unfold sparse_records, jan_2024. solve_first_last. Qed.

Lemma sparse_last : last_month sparse_records (jan_2024 + 3).
Proof. unfold sparse_records, jan_2024. solve_first_last. Qed.

Lemma linear_first : first_month linear_records jan_2024.
Proof. unfold linear_records, jan_2024. solve_first_last. Qed.

Lemma linear_last : last_month linear_records (jan_2024 + 3).
Proof. unfold linear_records, jan_2024. solve_first_last. Qed.

(* ------------------------------------------------------------------ *)
(** ** Lines 117-140: what the intended forecast returns *)

(** Contiguity.  For a non-empty frame whose earliest record falls in
    month [lo] and whose latest falls in month [hi], and [months_ahead >= 0],
    [monthly_forecast_intended] returns a frame whose months are exactly
    [lo, lo+1, ..., hi + months_ahead], each the calendar successor of the one
    before and so strictly ascending; the historical points come first and
    number [(hi - lo) + 1], the future points number [months_ahead]; and a
    month between [lo] and [hi] without any record is present with
    [actual = 0]. *)
Lemma intended_months_contiguous (df : list ExpenseRecord) (k lo hi : Z) :
  first_month df lo -> last_month df hi -> (0 <= k)%Z ->
  exists out,
    monthly_forecast_intended df k = Ok out /\
    map month out = map month_start (month_range lo (hi + k)) /\
    (forall i p q,
        nth_error out i = Some p -> nth_error out (S i) = Some q ->
        month q = next_month (month p) /\ date_lt (month p) (month q)) /\
    out = historical out ++ future out /\
    length (historical out) = Z.to_nat (hi - lo + 1) /\
    length (future out) = Z.to_nat k /\
    (forall m,
        (lo <= m <= hi)%Z ->
        (forall r, In r df -> month_ordinal (dt r) <> m) ->
        exists p, nth_error out (Z.to_nat (m - lo)) = Some p /\
                  month p = month_start m /\ actual p = Some 0%Qc).
Proof.
  intros Hlo Hhi Hk.
  pose proof (first_le_last Hlo Hhi) as Hle.
  exists (expected lo (actual_series df lo hi) k).
  split; [now apply intended_shape|].
  pose proof (months_expected df Hle Hk) as Hmonths.
  split; [exact Hmonths|].
  split; [|split; [|split; [|split]]].
  - intros i p q Hp Hq.
    apply (map_nth_error month) in Hp, Hq.
    rewrite Hmonths in Hp, Hq.
    rewrite month_range_seq, map_map in Hp, Hq by lia.
    apply nth_error_map_seq_inv in Hp as [-> _], Hq as [-> _].
    replace (lo + Z.of_nat (S i))%Z with (lo + Z.of_nat i + 1)%Z by lia.
    split; [now rewrite next_month_start | apply month_start_lt; lia].
  - rewrite historical_expected, future_expected. reflexivity.
  - rewrite historical_expected, length_map, length_seq.
    rewrite length_actual_series by assumption. lia.
  - now rewrite future_expected, length_map, length_seq.
  - intros m Hm Hnone.
    exists (hist_point lo (actual_series df lo hi) (Z.to_nat (m - lo))).
    split; [|split].
    + apply nth_error_expected_hist. rewrite length_actual_series by assumption. lia.
    + unfold hist_point. cbn [month]. f_equal. lia.
    + unfold hist_point. cbn [actual]. f_equal.
      rewrite nth_actual_series by lia.
      replace (lo + Z.of_nat (Z.to_nat (m - lo)))%Z with m by lia.
      now apply month_total_none.
Qed.

(** Equality of two closed rationals, by evaluation. *)
Ltac qc_compute := apply Qc_is_canon; vm_compute; reflexivity.

Ltac frame_compute :=
  vm_compute; repeat (f_equal; try qc_compute).

(* ------------------------------------------------------------------ *)
(** ** Order of the records *)

Lemma qsum_perm l l' : Permutation l l' -> qsum l = qsum l'.
Proof.
  induction 1 as [|x l l' _ IH|x y l|l l' l'' _ IH1 _ IH2]; simpl.
  - reflexivity.
  - now rewrite IH.
  - ring.
  - congruence.
Qed.

Lemma month_total_perm df df' m :
  Permutation df df' -> month_total df m = month_total df' m.
Proof.
  intros H. unfold month_total. apply qsum_perm, Permutation_map.
  induction H as [|x l l' _ IH|x y l|l l' l'' _ IH1 _ IH2]; simpl.
  - constructor.
  - destruct (month_ordinal (dt x) =? m)%Z; [now constructor | assumption].
  - destruct (month_ordinal (dt x) =? m)%Z, (month_ordinal (dt y) =? m)%Z;
      try apply Permutation_refl. constructor.
  - now transitivity (filter (fun r => (month_ordinal (dt r) =? m)%Z) l').
Qed.

Lemma first_month_perm df df' lo :
  Permutation df df' -> first_month df lo -> first_month df' lo.
Proof.
  intros H ((r & Hr & Hm) & Hmin). split.
  - exists r. split; [now apply (Permutation_in _ H) | assumption].
  - intros r' Hr'. apply Hmin. now apply (Permutation_in _ (Permutation_sym H)).
Qed.

Lemma last_month_perm df df' hi :
  Permutation df df' -> last_month df hi -> last_month df' hi.
Proof.
  intros H ((r & Hr & Hm) & Hmax). split.
  - exists r. split; [now apply (Permutation_in _ H) | assumption].
  - intros r' Hr'. apply Hmax. now apply (Permutation_in _ (Permutation_sym H)).
Qed.

Lemma actual_series_perm df df' lo hi :
  Permutation df df' -> actual_series df lo hi = actual_series df' lo hi.
Proof.
  intros H. unfold actual_series. apply map_ext. intros m. now apply month_total_perm.
Qed.

Lemma intended_perm df df' k :
  Permutation df df' -> monthly_forecast_intended df k = monthly_forecast_intended df' k.
Proof.
  intros H. destruct df as [|r df].
  { apply Permutation_nil in H. now subst. }
  assert (Hne : r :: df <> []) by discriminate.
  assert (Hne' : df' <> []).
  { intros ->. apply Permutation_sym, Permutation_nil in H. discriminate. }
  destruct (Z.lt_ge_cases k 0) as [Hk | Hk].
  - now rewrite !intended_negative.
  - destruct (nonempty_first_last Hne) as (lo & hi & Hlo & Hhi).
    rewrite (intended_shape Hlo Hhi Hk).
    rewrite (intended_shape (first_month_perm H Hlo) (last_month_perm H Hhi) Hk).
    now rewrite (actual_series_perm lo hi H).
Qed.

(* ------------------------------------------------------------------ *)
(** ** A linear history *)

Ltac decide_eqb :=
  repeat match goal with
  | |- context [(?a =? ?b)%Z] =>
      first [ replace (a =? b)%Z with true by (symmetry; apply Z.eqb_eq; lia)
            | replace (a =? b)%Z with false by (symmetry; apply Z.eqb_neq; lia) ]
  end.

Lemma four_months_series r1 r2 r3 r4 :
  four_months r1 r2 r3 r4 ->
  let m := month_ordinal (dt r1) in
  first_month [r1; r2; r3; r4] m /\
  last_month [r1; r2; r3; r4] (m + 3) /\
  actual_series [r1; r2; r3; r4] m (m + 3)
  = [amount r1; amount r2; amount r3; amount r4].
Proof.
  intros (H2 & H3 & H4) m. split; [|split].
  - split.
    + exists r1. split; [now left | reflexivity].
    + intros r [<- | [<- | [<- | [<- | []]]]]; fold m in H2, H3, H4 |- *; lia.
  - split.
    + exists r4. split; [simpl; tauto | exact H4].
    + intros r [<- | [<- | [<- | [<- | []]]]]; fold m in H2, H3, H4 |- *; lia.
  - unfold actual_series. rewrite month_range_seq by lia.
    replace (Z.to_nat (m + 3 - m)) with 3%nat by lia.
    unfold month_total. cbn [seq map filter].
    rewrite H2, H3, H4. fold m. decide_eqb. cbn [map qsum fold_right].
    now rewrite !Qcplus_0_r.
Qed.

(** Known trend recovery.  For a frame that holds, in any order, one
    record in each of four consecutive months with amounts 100, 200, 300 and
    400, and [months_ahead >= 1]: the actual series is [100, 200, 300, 400]
    and the first future point, the fifth month, has forecast
    [0.6 * 500 + 0.4 * mean(200, 300, 400) = 420]. *)
Lemma intended_trend_recovery (df : list ExpenseRecord)
    (r1 r2 r3 r4 : ExpenseRecord) (k : Z) :
  Permutation df [r1; r2; r3; r4] ->
  four_months r1 r2 r3 r4 ->
  amount r1 = Zq 100 -> amount r2 = Zq 200 ->
  amount r3 = Zq 300 -> amount r4 = Zq 400 ->
  (1 <= k)%Z ->
  exists out p,
    monthly_forecast_intended df k = Ok out /\
    map actual (historical out) = map Some [Zq 100; Zq 200; Zq 300; Zq 400] /\
    nth_error out 4 = Some p /\
    hd_error (future out) = Some p /\
    month p = month_start (month_ordinal (dt r1) + 4) /\
    actual p = None /\
    forecast p = (w_trend * Zq 500 + w_ma * mean [Zq 200; Zq 300; Zq 400])%Qc /\
    forecast p = Zq 420.
Proof.
  intros Hperm Hfour A1 A2 A3 A4 Hk.
  destruct (four_months_series Hfour) as (Hlo & Hhi & Hys).
  rewrite A1, A2, A3, A4 in Hys.
  set (m := month_ordinal (dt r1)) in *.
  set (ys := [Zq 100; Zq 200; Zq 300; Zq 400]) in *.
  exists (expected m ys k), (future_point m ys 0).
  split.
  { rewrite (intended_perm k Hperm).
    rewrite (intended_shape Hlo Hhi) by lia. now rewrite Hys. }
  split.
  { rewrite historical_expected. reflexivity. }
  split.
  { apply (@nth_error_expected_future m ys k 0). lia. }
  split.
  { rewrite future_expected.
    destruct (Z.to_nat k) as [|n] eqn:E; [lia|]. reflexivity. }
  split.
  { reflexivity. }
  split; [reflexivity|].
  unfold future_point. cbn [forecast]. split; qc_compute.
Qed.

Lemma linear_records_perm :
  Permutation linear_records
    [ mkRecord (mkDate 2024 1 15) (Zq 100); mkRecord (mkDate 2024 2 1) (Zq 200);
      mkRecord (mkDate 2024 3 9) (Zq 300); mkRecord (mkDate 2024 4 30) (Zq 400) ].
Proof.
  unfold linear_records.
  match goal with
  | |- Permutation (?c :: ?l) [?a; ?b; ?c; ?d] =>
      apply (@Permutation_cons_app _ l [a; b] [d] c)
  end.
  apply perm_skip, perm_swap.
Qed.

(* ------------------------------------------------------------------ *)
(** ** Historical and future forecasts *)

Lemma map_nth_seq_id {A : Type} (d : A) (l : list A) :
  map (fun i => nth i l d) (seq 0 (length l)) = l.
Proof.
  induction l as [|x l IH]; [reflexivity|].
  cbn [length seq map nth]. f_equal.
  rewrite <- seq_shift, map_map. exact IH.
Qed.

Lemma actual_historical_expected lo ys k :
  map actual (historical (expected lo ys k)) = map Some ys.
Proof.
  rewrite historical_expected, map_map. unfold hist_point. cbn [actual].
  rewrite <- (map_map (fun i => nth i ys 0%Qc) Some).
  now rewrite map_nth_seq_id.
Qed.

(** The future moving average is one constant.  For a non-empty frame
    and [months_ahead >= 0], with [ys] the gap-filled actual series (the
    [actual] column of the historical points) and [(a, b)] the fitted line:
    the historical point at position [i] has trend [a * i + b], and the
    [j]-th future point has forecast
    [0.6 * (a * (length ys + j) + b) + 0.4 * mean (last 3 of ys)]: the
    position continues that of the historical months and the moving average
    is the same for every future month. *)
Lemma intended_future_forecasts (df : list ExpenseRecord) (k lo hi : Z) :
  first_month df lo -> last_month df hi -> (0 <= k)%Z ->
  exists out ys a b,
    monthly_forecast_intended df k = Ok out /\
    ys = actual_series df lo hi /\
    map actual (historical out) = map Some ys /\
    fit ys = (a, b) /\
    (forall i p, nth_error (historical out) i = Some p ->
        forecast p = blend1 (a * Nq i + b) (mean (tail 3 (firstn (S i) ys)))) /\
    length (future out) = Z.to_nat k /\
    (forall j p, nth_error (future out) j = Some p ->
        forecast p
        = (w_trend * (a * Nq (length ys + j) + b) + w_ma * mean (tail 3 ys))%Qc).
Proof.
  intros Hlo Hhi Hk.
  set (ys := actual_series df lo hi).
  exists (expected lo ys k), ys, (fst (fit ys)), (snd (fit ys)).
  split; [now apply intended_shape|].
  split; [reflexivity|].
  split; [apply actual_historical_expected|].
  split; [now destruct (fit ys)|].
  split; [|split].
  - intros i p Hp. rewrite historical_expected in Hp.
    apply nth_error_map_seq_inv in Hp as [-> _]. reflexivity.
  - now rewrite future_expected, length_map, length_seq.
  - intros j p Hp. rewrite future_expected in Hp.
    apply nth_error_map_seq_inv in Hp as [-> _]. reflexivity.
Qed.

(** [months_ahead = 0].  For a non-empty frame and [months_ahead = 0]
    the output has no future point; it has one historical point per month
    from [lo] to [hi], and the point of month [lo + i] carries the total
    observed in that month as [actual] and
    [0.6 * (a * i + b) + 0.4 * (mean of the last 3 totals up to i)] as
    [forecast]. *)
Lemma intended_zero_months_ahead (df : list ExpenseRecord) (lo hi : Z) :
  first_month df lo -> last_month df hi ->
  exists out ys a b,
    monthly_forecast_intended df 0 = Ok out /\
    future out = [] /\
    historical out = out /\
    ys = actual_series df lo hi /\
    fit ys = (a, b) /\
    length out = Z.to_nat (hi - lo + 1) /\
    (forall i, (i < length out)%nat ->
       exists p,
         nth_error out i = Some p /\
         month p = month_start (lo + Z.of_nat i) /\
         actual p = Some (month_total df (lo + Z.of_nat i)) /\
         forecast p
         = (w_trend * (a * Nq i + b)
            + w_ma * mean (tail 3 (firstn (S i) ys)))%Qc).
Proof.
  intros Hlo Hhi.
  pose proof (first_le_last Hlo Hhi) as Hle.
  set (ys := actual_series df lo hi).
  assert (Hlen : length ys = S (Z.to_nat (hi - lo)))
    by now apply length_actual_series.
  exists (expected lo ys 0), ys, (fst (fit ys)), (snd (fit ys)).
  split; [apply intended_shape; [assumption | assumption | lia]|].
  split; [now rewrite future_expected|].
  split; [rewrite historical_expected; unfold expected; cbn; now rewrite app_nil_r|].
  split; [reflexivity|].
  split; [now destruct (fit ys)|].
  split; [rewrite length_expected, Hlen; lia|].
  intros i Hi. rewrite length_expected, Hlen in Hi.
  exists (hist_point lo ys i).
  split; [apply nth_error_expected_hist; lia|].
  split; [reflexivity|].
  split; [|reflexivity].
  unfold hist_point. cbn [actual]. f_equal.
  apply nth_actual_series; [assumption | simpl in Hi; lia].
Qed.

(* ------------------------------------------------------------------ *)
(** ** No error, no empty mean, a defined degenerate fit *)

Lemma length_tail {A : Type} (k : nat) (l : list A) :
  length (tail k l) = Nat.min k (length l).
Proof. unfold tail. rewrite length_skipn. lia. Qed.

Lemma window_nonempty (ys : list Qc) (i : nat) :
  (i < length ys)%nat ->
  (1 <= length (tail 3 (firstn (S i) ys)) <= 3)%nat.
Proof. intros Hi. rewrite length_tail, length_firstn. lia. Qed.

Lemma tail_nonempty (ys : list Qc) :
  ys <> [] -> (1 <= length (tail 3 ys) <= 3)%nat.
Proof.
  intros H. rewrite length_tail. destruct ys; [congruence|]. simpl length. lia.
Qed.

Lemma Qc_one_neq_zero : (1 <> 0)%Qc.
Proof. intros H. apply (f_equal this) in H. discriminate H. Qed.

(** The fit through a single month: slope 0, intercept the lone value. *)
Lemma fit_single (y : Qc) : fit [y] = (0%Qc, y).
Proof.
  unfold fit. change (design (length [y])) with [(0%Qc, 1%Qc)].
  unfold lstsq. cbn [map combine qsum fold_right fst snd].
  destruct (Qc_eq_dec _ 0) as [_ | Hdet].
  - destruct (Qc_eq_dec _ 0) as [Htr | _].
    + exfalso. apply Qc_one_neq_zero. rewrite <- Htr. ring.
    + f_equal; field; exact Qc_one_neq_zero.
  - exfalso. apply Hdet. ring.
Qed.

Lemma weights_sum : (w_trend + w_ma = 1)%Qc.
Proof. qc_compute. Qed.

Lemma blend1_same (x : Qc) : blend1 x x = x.
Proof.
  unfold blend1. transitivity ((w_trend + w_ma) * x)%Qc; [ring|].
  rewrite weights_sum. ring.
Qed.

Lemma mean_single (y : Qc) : mean [y] = y.
Proof.
  unfold mean. cbn [length qsum fold_right]. change (Nq 1) with 1%Qc.
  field. exact Qc_one_neq_zero.
Qed.

Lemma flat_line (t y : Qc) : (0 * t + y = y)%Qc.
Proof. ring. Qed.

Lemma actual_series_single df lo :
  actual_series df lo lo = [month_total df lo].
Proof.
  unfold actual_series. rewrite month_range_seq by lia.
  rewrite Z.sub_diag. cbn. now rewrite Z.add_0_r.
Qed.

(** No error on the edge cases.  On an empty frame, whatever
    [months_ahead] is, and on a non-empty frame with [months_ahead >= 0]
    (a single month of data and [months_ahead = 0] included),
    [monthly_forecast_intended] returns a frame: no indexing, range, shape or
    frame-building step raises.  No mean is taken over an empty window.
    When all records fall in one month, the series has the single value
    [y], the fit is the line of slope 0 and intercept [y], and every point
    returned has forecast [y]. *)
Lemma intended_no_error (df : list ExpenseRecord) (k : Z) :
  df = [] \/ (0 <= k)%Z ->
  (exists out, monthly_forecast_intended df k = Ok out) /\
  (forall i, (i < length (values (frame_series df)))%nat ->
     (1 <= length (tail 3 (firstn (S i) (values (frame_series df)))))%nat) /\
  (df <> [] -> (1 <= length (tail 3 (values (frame_series df))))%nat) /\
  (forall lo, first_month df lo -> last_month df lo ->
     exists y out,
       values (frame_series df) = [y] /\
       fit [y] = (0%Qc, y) /\
       monthly_forecast_intended df k = Ok out /\
       length out = S (Z.to_nat k) /\
       Forall (fun p => forecast p = y) out).
Proof.
  intros Hcase. split; [|split; [|split]].
  - destruct df as [|r df]; [now exists []|].
    destruct Hcase as [Hnil | Hk]; [discriminate|].
    destruct (@nonempty_first_last (r :: df) ltac:(discriminate))
      as (lo & hi & Hlo & Hhi).
    eexists. now apply (intended_shape Hlo Hhi).
  - intros i Hi. now apply window_nonempty.
  - intros Hne. apply tail_nonempty.
    destruct (nonempty_first_last Hne) as (lo & hi & Hlo & Hhi).
    rewrite (monthly_series_values Hlo Hhi).
    intros E. apply (f_equal (@length Qc)) in E.
    rewrite length_actual_series in E
      by apply (first_le_last Hlo Hhi). discriminate.
  - intros lo Hlo Hhi.
    assert (Hk : (0 <= k)%Z).
    { destruct Hcase as [-> | Hk]; [|exact Hk].
      destruct Hlo as ((? & [] & _) & _). }
    exists (month_total df lo), (expected lo [month_total df lo] k).
    split; [rewrite (monthly_series_values Hlo Hhi); apply actual_series_single|].
    split; [apply fit_single|].
    split.
    { rewrite (intended_shape Hlo Hhi Hk). now rewrite actual_series_single. }
    split; [rewrite length_expected; reflexivity|].
    unfold expected. apply Forall_app. split.
    + cbn [length seq map]. constructor; [|constructor].
      unfold hist_point. rewrite fit_single. cbn [fst snd forecast].
      change (tail 3 (firstn 1 [month_total df lo])) with [month_total df lo].
      rewrite mean_single, flat_line. apply blend1_same.
    + apply Forall_forall. intros p Hp. apply in_map_iff in Hp as (j & <- & _).
      unfold future_point. rewrite fit_single. cbn [fst snd forecast].
      change (tail 3 [month_total df lo]) with [month_total df lo].
      rewrite mean_single, flat_line. apply blend1_same.
Qed.

(* ------------------------------------------------------------------ *)
(** ** Conservation of the total *)

Lemma month_total_cons r df m :
  month_total (r :: df) m
  = ((if (month_ordinal (dt r) =? m)%Z then amount r else 0) + month_total df m)%Qc.
Proof.
  unfold month_total. cbn [filter].
  destruct (month_ordinal (dt r) =? m)%Z; cbn [map qsum fold_right]; [reflexivity | ring].
Qed.

Lemma qsum_map_plus {A : Type} (f g : A -> Qc) (l : list A) :
  qsum (map (fun x => f x + g x)%Qc l) = (qsum (map f l) + qsum (map g l))%Qc.
Proof.
  induction l as [|x l IH]; cbn [map qsum fold_right]; [ring|].
  fold (qsum (map (fun x => f x + g x)%Qc l)) (qsum (map f l)) (qsum (map g l)).
  rewrite IH. ring.
Qed.

Lemma qsum_map_zero {A : Type} (l : list A) : qsum (map (fun _ => 0%Qc) l) = 0%Qc.
Proof.
  induction l as [|x l IH]; cbn [map qsum fold_right]; [reflexivity|].
  fold (qsum (map (fun _ : A => 0%Qc) l)). rewrite IH. ring.
Qed.

(** A month occurs once in a range that contains it. *)
Lemma qsum_indicator_from (x lo : Z) (a : Qc) (len s : nat) :
  qsum (map (fun i => if (x =? lo + Z.of_nat i)%Z then a else 0%Qc) (seq s len))
  = if ((lo + Z.of_nat s <=? x) && (x <? lo + Z.of_nat s + Z.of_nat len))%Z
    then a else 0%Qc.
Proof.
  revert s. induction len as [|len IH]; intros s.
  - cbn [seq map qsum fold_right].
    destruct ((lo + Z.of_nat s <=? x) && (x <? lo + Z.of_nat s + Z.of_nat 0))%Z eqn:E;
      [|reflexivity].
    apply andb_prop in E as [E1 E2]. apply Z.leb_le in E1. apply Z.ltb_lt in E2. lia.
  - cbn [seq map qsum fold_right].
    fold (qsum (map (fun i => if (x =? lo + Z.of_nat i)%Z then a else 0%Qc)
                    (seq (S s) len))).
    rewrite IH.
    destruct (x =? lo + Z.of_nat s)%Z eqn:E0;
      destruct ((lo + Z.of_nat (S s) <=? x)
                && (x <? lo + Z.of_nat (S s) + Z.of_nat len))%Z eqn:E1;
      destruct ((lo + Z.of_nat s <=? x)
                && (x <? lo + Z.of_nat s + Z.of_nat (S len)))%Z eqn:E2;
      try ring;
      exfalso;
      rewrite ?andb_true_iff, ?andb_false_iff, ?Z.leb_le, ?Z.ltb_lt,
        ?Z.leb_gt, ?Z.ltb_ge, ?Z.eqb_eq, ?Z.eqb_neq in *; lia.
Qed.

Lemma qsum_indicator (x lo hi : Z) (a : Qc) :
  (lo <= x <= hi)%Z ->
  qsum (map (fun m => if (x =? m)%Z then a else 0%Qc) (month_range lo hi)) = a.
Proof.
  intros H. rewrite month_range_seq, map_map by lia.
  rewrite qsum_indicator_from.
  destruct ((lo + Z.of_nat 0 <=? x)
            && (x <? lo + Z.of_nat 0 + Z.of_nat (S (Z.to_nat (hi - lo)))))%Z eqn:E;
    [reflexivity|].
  exfalso. rewrite andb_false_iff, Z.leb_gt, Z.ltb_ge in E. lia.
Qed.

Lemma qsum_actual_series df lo hi :
  (forall r, In r df -> (lo <= month_ordinal (dt r) <= hi)%Z) ->
  qsum (actual_series df lo hi) = qsum (map amount df).
Proof.
  unfold actual_series. induction df as [|r df IH]; intros Hin.
  - apply (qsum_map_zero (month_range lo hi)).
  - rewrite (map_ext _ _ (month_total_cons r df)).
    rewrite (qsum_map_plus
               (fun m => if (month_ordinal (dt r) =? m)%Z then amount r else 0%Qc)
               (month_total df)).
    rewrite qsum_indicator by (apply Hin; now left).
    rewrite IH by (intros r' Hr'; apply Hin; now right).
    reflexivity.
Qed.

(** The total is conserved.  For every frame and [months_ahead >= 0],
    [monthly_forecast_intended] returns a frame in which the [actual] values of the
    historical points add up to the sum of the amounts of the input
    records. *)
Lemma intended_total_conserved (df : list ExpenseRecord) (k : Z) :
  (0 <= k)%Z ->
  exists out,
    monthly_forecast_intended df k = Ok out /\
    qsum (map actual_or_zero (historical out)) = qsum (map amount df).
Proof.
  intros Hk. destruct df as [|r df].
  { exists []. split; reflexivity. }
  destruct (@nonempty_first_last (r :: df) ltac:(discriminate))
    as (lo & hi & Hlo & Hhi).
  exists (expected lo (actual_series (r :: df) lo hi) k).
  split; [now apply intended_shape|].
  rewrite historical_expected, map_map.
  unfold hist_point, actual_or_zero. cbn [actual].
  rewrite map_nth_seq_id.
  apply qsum_actual_series. intros r' Hr'.
  split; [now apply (proj2 Hlo) | now apply (proj2 Hhi)].
Qed.

(* ------------------------------------------------------------------ *)
(** ** Forecasts are not clamped *)

(** Totals 400 and 100 and one month ahead: the forecast for January 2025
    is -20. *)
Lemma intended_falling :
  monthly_forecast_intended falling_records 1 =
    Ok [ mkPoint (mkDate 2024 11 1) (Some (Zq 400)) (Zq 400);
         mkPoint (mkDate 2024 12 1) (Some (Zq 100)) (Zq 160);
         mkPoint (mkDate 2025 1 1) None (Zq (-20)) ].
Proof. frame_compute. Qed.

Lemma falling_nonnegative :
  Forall (fun r => (0 <= amount r)%Qc) falling_records.
Proof. repeat constructor; vm_compute; discriminate. Qed.

(* ------------------------------------------------------------------ *)
(** ** [monthly_forecast] as written *)

(** Whatever [monthly_forecast] returns is the empty frame: it returns only
    on an empty input. *)
Lemma monthly_forecast_returns_only_empty df k out :
  monthly_forecast df k = Ok out -> df = [] /\ out = [].
Proof.
  destruct df as [|r df]; intros H.
  - split; [reflexivity|]. now injection H.
  - rewrite monthly_forecast_raises in H by discriminate. discriminate H.
Qed.

(** C1 (contiguity): the code stops before it builds any month.  On the
    frame with two records in January 2024 and one in April 2024 and
    [months_ahead = 2], [monthly_forecast] raises [AttributeError] at line
    114.  Lines 117-140, run on the timestamps of the [dt] column, return
    the six months January to June 2024 in order, four historical points and
    two future ones, with February and March present with [actual = 0]. *)
Theorem contiguity_stops_at_line_114 :
  monthly_forecast sparse_records 2 = Raise AttributeError /\
  exists out,
    monthly_forecast_intended sparse_records 2 = Ok out /\
    map month out
    = [ mkDate 2024 1 1; mkDate 2024 2 1; mkDate 2024 3 1;
        mkDate 2024 4 1; mkDate 2024 5 1; mkDate 2024 6 1 ] /\
    length (historical out) = 4%nat /\
    length (future out) = 2%nat /\
    map actual (historical out)
    = [ Some (Zq 107); Some (Zq 0); Some (Zq 0); Some (Zq 50) ].
Proof.
  split; [reflexivity|].
  destruct (@intended_months_contiguous sparse_records 2 jan_2024 (jan_2024 + 3)
              sparse_first sparse_last ltac:(lia))
    as (out & Hout & Hm & _ & _ & Hh & Hf & _).
  exists out. split; [exact Hout|]. split; [exact Hm|].
  split; [exact Hh|]. split; [exact Hf|].
  rewrite (intended_shape sparse_first sparse_last) in Hout by lia.
  injection Hout as <-. rewrite actual_historical_expected.
  frame_compute.
Qed.

(** C2 (known trend recovery): the code stops before it fits the trend.  On
    one record a month from January to April 2024 with amounts 100, 200,
    300 and 400 and [months_ahead = 1], [monthly_forecast] raises
    [AttributeError] at line 114.  Lines 117-140, run on the timestamps of
    the [dt] column, give May 2024 the forecast
    [0.6 * 500 + 0.4 * mean(200, 300, 400) = 420]. *)
Theorem trend_recovery_stops_at_line_114 :
  monthly_forecast linear_records 1 = Raise AttributeError /\
  exists out p,
    monthly_forecast_intended linear_records 1 = Ok out /\
    hd_error (future out) = Some p /\
    month p = mkDate 2024 5 1 /\
    forecast p = (w_trend * Zq 500 + w_ma * mean [Zq 200; Zq 300; Zq 400])%Qc /\
    forecast p = Zq 420.
Proof.
  split; [reflexivity|].
  destruct (@intended_trend_recovery linear_records
              (mkRecord (mkDate 2024 1 15) (Zq 100))
              (mkRecord (mkDate 2024 2 1) (Zq 200))
              (mkRecord (mkDate 2024 3 9) (Zq 300))
              (mkRecord (mkDate 2024 4 30) (Zq 400)) 1
              linear_records_perm
              ltac:(repeat split; reflexivity)
              eq_refl eq_refl eq_refl eq_refl ltac:(lia))
    as (out & p & Hout & _ & _ & Hhd & Hmonth & _ & Hblend & H420).
  exists out, p. repeat split; assumption.
Qed.

(** C3 (single-month input): the code raises instead of returning two
    points.  On the single record of 15 January 2024 with amount 100 and
    [months_ahead = 1], [monthly_forecast] raises [AttributeError] at line
    114.  Lines 117-140, run on the timestamps of the [dt] column, return
    exactly January 2024 with actual 100 and forecast 100, and February 2024
    with no actual and forecast 100; the fit is the line of slope 0 through
    100 and both moving averages are 100. *)
Theorem single_month_stops_at_line_114 :
  monthly_forecast one_record 1 = Raise AttributeError /\
  monthly_forecast_intended one_record 1 =
    Ok [ mkPoint (mkDate 2024 1 1) (Some (Zq 100)) (Zq 100);
         mkPoint (mkDate 2024 2 1) None (Zq 100) ] /\
  fit [Zq 100] = (Zq 0, Zq 100) /\
  rolling_mean 3 [Zq 100] = [Zq 100] /\
  mean (tail 3 [Zq 100]) = Zq 100.
Proof.
  split; [reflexivity|]. split; [|split; [|split]].
  - frame_compute.
  - frame_compute.
  - frame_compute.
  - qc_compute.
Qed.

(** C4 (one moving average for all future months): the code produces no
    future month.  On the frame with records in January and April 2024 and
    [months_ahead = 2], [monthly_forecast] raises [AttributeError] at line
    114.  Lines 117-140, run on the timestamps of the [dt] column, return
    two future points whose forecasts are
    [0.6 * (a * 4 + b) + 0.4 * c] and [0.6 * (a * 5 + b) + 0.4 * c], with
    [(a, b)] the fitted line and [c] the mean of the last three monthly
    totals, the same for both. *)
Theorem future_average_stops_at_line_114 :
  monthly_forecast sparse_records 2 = Raise AttributeError /\
  exists out p q a b,
    monthly_forecast_intended sparse_records 2 = Ok out /\
    future out = [p; q] /\
    fit [Zq 107; Zq 0; Zq 0; Zq 50] = (a, b) /\
    forecast p = (w_trend * (a * Zq 4 + b) + w_ma * mean [Zq 0; Zq 0; Zq 50])%Qc /\
    forecast q = (w_trend * (a * Zq 5 + b) + w_ma * mean [Zq 0; Zq 0; Zq 50])%Qc.
Proof.
  split; [reflexivity|].
  destruct (@intended_future_forecasts sparse_records 2 jan_2024 (jan_2024 + 3)
              sparse_first sparse_last ltac:(lia))
    as (out & ys & a & b & Hout & Hys & _ & Hfit & _ & Hlen & Hfut).
  assert (Eys : ys = [Zq 107; Zq 0; Zq 0; Zq 50]) by (subst ys; frame_compute).
  destruct (future out) as [|p [|q [|? ?]]] eqn:E; try discriminate Hlen.
  exists out, p, q, a, b. split; [exact Hout|]. split; [exact E|].
  rewrite <- Eys. split; [exact Hfit|].
  rewrite (Hfut 0%nat p eq_refl), (Hfut 1%nat q eq_refl), Eys.
  split; reflexivity.
Qed.

(** C5 (empty input).  On an empty frame [monthly_forecast] returns the
    empty frame, whatever [months_ahead] is, and raises nothing. *)
Theorem empty_input_empty_output (k : Z) : monthly_forecast [] k = Ok [].
Proof. reflexivity. Qed.

(** C6 ([months_ahead = 0]): the code raises instead of returning the
    history.  On the frame with records in January and April 2024 and
    [months_ahead = 0], [monthly_forecast] raises [AttributeError] at line
    114.  Lines 117-140, run on the timestamps of the [dt] column, return
    four points, all historical, each with its [actual]. *)
Theorem zero_months_stops_at_line_114 :
  monthly_forecast sparse_records 0 = Raise AttributeError /\
  exists out,
    monthly_forecast_intended sparse_records 0 = Ok out /\
    future out = [] /\
    historical out = out /\
    length out = 4%nat /\
    map actual out = [ Some (Zq 107); Some (Zq 0); Some (Zq 0); Some (Zq 50) ].
Proof.
  split; [reflexivity|].
  destruct (@intended_zero_months_ahead sparse_records jan_2024 (jan_2024 + 3)
              sparse_first sparse_last)
    as (out & ys & a & b & Hout & Hfut & Hhist & _ & _ & Hlen & _).
  exists out. split; [exact Hout|]. split; [exact Hfut|].
  split; [exact Hhist|]. split; [exact Hlen|].
  rewrite <- Hhist.
  rewrite (intended_shape sparse_first sparse_last) in Hout by lia.
  injection Hout as <-. rewrite actual_historical_expected.
  frame_compute.
Qed.

(** C7 (no error on the edge cases): a single month of data raises.  On the
    single record of 15 January 2024, [monthly_forecast] raises
    [AttributeError] at line 114, with [months_ahead = 1] and with
    [months_ahead = 0].  Lines 117-140, run on the timestamps of the [dt]
    column, return a frame in both cases, and the fit through the one
    monthly total is the line of slope 0 and intercept 100. *)
Theorem single_month_raises :
  monthly_forecast one_record 1 = Raise AttributeError /\
  monthly_forecast one_record 0 = Raise AttributeError /\
  (exists out, monthly_forecast_intended one_record 1 = Ok out) /\
  (exists out, monthly_forecast_intended one_record 0 = Ok out) /\
  fit (values (frame_series one_record)) = (Zq 0, Zq 100).
Proof.
  split; [reflexivity|]. split; [reflexivity|].
  split; [|split].
  - exact (proj1 (@intended_no_error one_record 1 (or_intror (Z.le_0_1)))).
  - exact (proj1 (@intended_no_error one_record 0 (or_intror (Z.le_refl 0)))).
  - frame_compute.
Qed.

(** C8 (order independence): the code returns no output to compare.  On
    one record a month from January to April 2024 and on the same records
    in reverse order, with [months_ahead = 3], [monthly_forecast] raises
    [AttributeError] at line 114 both times, before any aggregation.
    Lines 117-140, run on the timestamps of the [dt] column, return one and
    the same frame of seven points for the two orders. *)
Theorem order_independence_stops_at_line_114 :
  Permutation linear_records (rev linear_records) /\
  rev linear_records <> linear_records /\
  monthly_forecast linear_records 3 = Raise AttributeError /\
  monthly_forecast (rev linear_records) 3 = Raise AttributeError /\
  exists out,
    monthly_forecast_intended linear_records 3 = Ok out /\
    monthly_forecast_intended (rev linear_records) 3 = Ok out /\
    length (historical out) = 4%nat /\
    length (future out) = 3%nat.
Proof.
  split; [apply Permutation_rev|].
  split.
  { intros E. apply (f_equal (map (fun r => mon (dt r)))) in E. discriminate E. }
  split; [reflexivity|]. split; [reflexivity|].
  destruct (@intended_months_contiguous linear_records 3 jan_2024 (jan_2024 + 3)
              linear_first linear_last ltac:(lia))
    as (out & Hout & _ & _ & _ & Hh & Hf & _).
  exists out. split; [exact Hout|].
  split; [rewrite <- (intended_perm 3 (Permutation_rev linear_records)); exact Hout|].
  split; [exact Hh | exact Hf].
Qed.

(** C9 (the total is conserved): the code returns no historical point to
    add up.  On the frame with records of 50, 100 and 7 and
    [months_ahead = 3], [monthly_forecast] raises [AttributeError] at line
    114.  Lines 117-140, run on the timestamps of the [dt] column, return a
    frame whose historical [actual] values add up to 157, the sum of the
    amounts. *)
Theorem total_stops_at_line_114 :
  monthly_forecast sparse_records 3 = Raise AttributeError /\
  exists out,
    monthly_forecast_intended sparse_records 3 = Ok out /\
    qsum (map actual_or_zero (historical out)) = qsum (map amount sparse_records) /\
    qsum (map amount sparse_records) = Zq 157.
Proof.
  split; [reflexivity|].
  destruct (@intended_total_conserved sparse_records 3 ltac:(lia))
    as (out & Hout & Hsum).
  exists out. split; [exact Hout|]. split; [exact Hsum|]. qc_compute.
Qed.

(** C10 (forecasts are not clamped): the code reports no forecast at all.
    On records of 400 in November 2024 and 100 in December 2024, all
    non-negative, and [months_ahead = 1], [monthly_forecast] raises
    [AttributeError] at line 114.  Lines 117-140, run on the timestamps of
    the [dt] column, report -20 for January 2025. *)
Theorem negative_forecast_stops_at_line_114 :
  Forall (fun r => (0 <= amount r)%Qc) falling_records /\
  monthly_forecast falling_records 1 = Raise AttributeError /\
  exists out p,
    monthly_forecast_intended falling_records 1 = Ok out /\
    In p (future out) /\
    month p = mkDate 2025 1 1 /\
    forecast p = Zq (-20) /\
    (forecast p < 0)%Qc.
Proof.
  split; [exact falling_nonnegative|]. split; [reflexivity|].
  eexists. exists (mkPoint (mkDate 2025 1 1) None (Zq (-20))).
  split; [exact intended_falling|].
  split; [left; reflexivity|].
  repeat split.
Qed.

(* ------------------------------------------------------------------ *)
(** ** The session state *)

Lemma dict_get_set_same {V : Type} (k : String.string) (v : V) (d : dict V) :
  dict_get k (dict_set k v d) = Some v.
Proof.
  induction d as [|[k' v'] d IH]; cbn [dict_set dict_get].
  - now rewrite String.eqb_refl.
  - destruct (String.eqb k' k) eqn:E; cbn [dict_get].
    + now rewrite String.eqb_refl.
    + now rewrite E.
Qed.

Lemma dict_get_set_other {V : Type} (k k' : String.string) (v : V) (d : dict V) :
  k <> k' -> dict_get k' (dict_set k v d) = dict_get k' d.
Proof.
  intros Hne. apply String.eqb_neq in Hne.
  induction d as [|[k0 v0] d IH]; cbn [dict_set dict_get].
  - now rewrite Hne.
  - destruct (String.eqb k0 k) eqn:E; cbn [dict_get].
    + apply String.eqb_eq in E. subst k0. now rewrite Hne.
    + now rewrite IH.
Qed.

(** One turn of the loop of lines 36-38. *)
Lemma dict_get_setdefault {V : Type} (k k' : String.string) (v : V) (d : dict V) :
  dict_get k' (if dict_mem k d then d else dict_set k v d)
  = match dict_get k' d with
    | Some x => Some x
    | None => if String.eqb k k' then Some v else None
    end.
Proof.
  unfold dict_mem. destruct (String.eqb k k') eqn:E.
  - apply String.eqb_eq in E. subst k'.
    destruct (dict_get k d) eqn:G; [exact G | apply dict_get_set_same].
  - apply String.eqb_neq in E.
    destruct (dict_get k d) eqn:G.
    + now destruct (dict_get k' d).
    + rewrite dict_get_set_other by assumption. now destruct (dict_get k' d).
Qed.

Lemma dict_get_fold_setdefault {V : Type} (l d : dict V) (k : String.string) :
  dict_get k
    (fold_left (fun st kv => if dict_mem (fst kv) st then st
                             else dict_set (fst kv) (snd kv) st) l d)
  = match dict_get k d with
    | Some x => Some x
    | None => dict_get k l
    end.
Proof.
  revert d. induction l as [|[k0 v0] l IH]; intros d; cbn [fold_left fst snd].
  - now destruct (dict_get k d).
  - rewrite IH, dict_get_setdefault. cbn [dict_get].
    destruct (dict_get k d); [reflexivity|].
    now destruct (String.eqb k0 k).
Qed.

Lemma dict_get_ensure {V : Type} (st : session V) (k : String.string) :
  dict_get k (ensure_session_state st)
  = match dict_get k st with
    | Some x => Some x
    | None => dict_get k (@defaults V)
    end.
Proof. apply dict_get_fold_setdefault. Qed.

Lemma fold_setdefault_present {V : Type} (l d : dict V) :
  (forall kv, In kv l -> dict_mem (fst kv) d = true) ->
  fold_left (fun st kv => if dict_mem (fst kv) st then st
                          else dict_set (fst kv) (snd kv) st) l d = d.
Proof.
  induction l as [|kv l IH]; intros H; cbn [fold_left]; [reflexivity|].
  rewrite (H kv) by now left. apply IH. intros kv' Hkv'. apply H. now right.
Qed.

(** X1.  Entries that are present are kept, keys other than the three
    defaults are not created. *)
Theorem ensure_session_state_keeps {V : Type} (st : session V) (k : String.string) :
  dict_mem k st = true \/
    ~ In k ["user"%string; "categories"%string; "expenses"%string] ->
  dict_get k (ensure_session_state st) = dict_get k st.
Proof.
  intros H. rewrite dict_get_ensure. unfold dict_mem in H.
  destruct (dict_get k st) eqn:G; [reflexivity|].
  destruct H as [H | H]; [discriminate H|].
  cbn [defaults dict_get].
  destruct (String.eqb "user" k) eqn:E1;
    [apply String.eqb_eq in E1; exfalso; apply H; simpl; auto|].
  destruct (String.eqb "categories" k) eqn:E2;
    [apply String.eqb_eq in E2; exfalso; apply H; simpl; auto|].
  destruct (String.eqb "expenses" k) eqn:E3;
    [apply String.eqb_eq in E3; exfalso; apply H; simpl; auto|].
  reflexivity.
Qed.

(** X2.  After the call the three keys are there; one that was missing
    holds [None]. *)
Theorem ensure_session_state_defaults {V : Type} (st : session V) (k : String.string) :
  In k ["user"%string; "categories"%string; "expenses"%string] ->
  exists v,
    dict_get k (ensure_session_state st) = Some v /\
    (dict_get k st = None -> v = None).
Proof.
  intros H. rewrite dict_get_ensure.
  destruct (dict_get k st) as [x|] eqn:G.
  - exists x. split; [reflexivity | discriminate].
  - exists None. split; [|reflexivity].
    destruct H as [<- | [<- | [<- | []]]]; reflexivity.
Qed.

(** X3.  A second call changes nothing. *)
Theorem ensure_session_state_idempotent {V : Type} (st : session V) :
  ensure_session_state (ensure_session_state st) = ensure_session_state st.
Proof.
  unfold ensure_session_state at 1. apply fold_setdefault_present.
  intros kv Hkv. unfold dict_mem. rewrite dict_get_ensure.
  destruct (dict_get (fst kv) st); [reflexivity|].
  destruct Hkv as [<- | [<- | [<- | []]]]; reflexivity.
Qed.

(** X4.  The start of a run never fails on the [user] attribute, and shows
    the pages of a logged-in user exactly when a user is stored. *)
Theorem start_run_page {V : Type} (st : session V) :
  exists p,
    start_run st = Ok (p, ensure_session_state st) /\
    (p = LoggedIn <-> exists u, dict_get "user"%string st = Some (Some u)).
Proof.
  unfold start_run, user_is_none. rewrite dict_get_ensure.
  destruct (dict_get "user"%string st) as [[u|]|] eqn:G; cbn [defaults dict_get bind].
  - exists LoggedIn. split; [reflexivity|]. split; [intros _; now exists u | reflexivity].
  - exists LoginForm. split; [reflexivity|].
    split; [discriminate | intros (u & Hu); discriminate Hu].
  - exists LoginForm. split; [reflexivity|].
    split; [discriminate | intros (u & Hu); discriminate Hu].
Qed.

(** X5.  Signing out.  When the remote call returns, the next run shows the
    login form and every other entry of the session is as before; when it
    raises, so does [sign_out]. *)
Theorem sign_out_then_login_form {V : Type} (st : session V) :
  (exists st1,
      sign_out (Ok tt) st = Ok st1 /\
      start_run st1 = Ok (LoginForm, ensure_session_state st1) /\
      forall k, k <> "user"%string -> dict_get k st1 = dict_get k st) /\
  (forall e, sign_out (Raise e) st = Raise e).
Proof.
  split; [|reflexivity].
  exists (dict_set "user"%string None st). split; [reflexivity|]. split.
  - unfold start_run, user_is_none.
    now rewrite dict_get_ensure, dict_get_set_same.
  - intros k Hk. apply dict_get_set_other. congruence.
Qed.

(* ------------------------------------------------------------------ *)
(** ** Categories *)

Lemma dict_keys_set {V : Type} (k : String.string) (v : V) (d : dict V) :
  dict_keys (dict_set k v d)
  = if dict_mem k d then dict_keys d else dict_keys d ++ [k].
Proof.
  unfold dict_mem, dict_keys.
  induction d as [|[k0 v0] d IH]; cbn [dict_set dict_get map fst]; [reflexivity|].
  destruct (String.eqb k0 k) eqn:E; cbn [map fst].
  - apply String.eqb_eq in E. now subst.
  - rewrite IH. now destruct (dict_get k d).
Qed.

Lemma dict_mem_keys {V : Type} (k : String.string) (d : dict V) :
  dict_mem k d = true <-> In k (dict_keys d).
Proof.
  unfold dict_mem, dict_keys.
  induction d as [|[k0 v0] d IH]; cbn [dict_get map fst In].
  - split; [discriminate | contradiction].
  - destruct (String.eqb k0 k) eqn:E.
    + apply String.eqb_eq in E. split; [now left | reflexivity].
    + apply String.eqb_neq in E. rewrite IH.
      split; [now right | intros [? | ?]; [contradiction | assumption]].
Qed.

Lemma NoDup_snoc {A : Type} (l : list A) (x : A) :
  NoDup l -> ~ In x l -> NoDup (l ++ [x]).
Proof.
  intros Hl Hx. induction Hl as [|y l Hy Hl IH]; cbn [app].
  - constructor; [intros [] | constructor].
  - constructor.
    + rewrite in_app_iff. intros [H | [H | []]]; [contradiction|].
      subst. apply Hx. now left.
    + apply IH. intros H. apply Hx. now right.
Qed.

(** The dictionary built by line 219, from [d] on. *)
Lemma cat_options_from_keys (categories : list Category) (d : dict Z) :
  NoDup (dict_keys d) ->
  NoDup (dict_keys (fold_left (fun d row => dict_set (name row) (category_id row) d)
                              categories d)) /\
  forall n,
    In n (dict_keys (fold_left (fun d row => dict_set (name row) (category_id row) d)
                               categories d)) <->
    In n (dict_keys d) \/ exists r, In r categories /\ name r = n.
Proof.
  revert d. induction categories as [|r cats IH]; intros d Hd; cbn [fold_left].
  - split; [exact Hd|]. intros n.
    split; [now left | intros [H | (r & [] & _)]; exact H].
  - assert (Hd1 : NoDup (dict_keys (dict_set (name r) (category_id r) d))).
    { rewrite dict_keys_set. destruct (dict_mem (name r) d) eqn:M; [exact Hd|].
      apply NoDup_snoc; [exact Hd|]. intros Hin. apply dict_mem_keys in Hin. congruence. }
    destruct (IH _ Hd1) as [N K]. split; [exact N|].
    intros n. rewrite K, dict_keys_set.
    destruct (dict_mem (name r) d) eqn:M.
    + apply dict_mem_keys in M. split.
      * intros [H | (r1 & Hr1 & Hn)];
          [now left | right; exists r1; split; [now right | exact Hn]].
      * intros [H | (r1 & [<- | Hr1] & Hn)];
          [now left | left; now subst | right; now exists r1].
    + rewrite in_app_iff. split.
      * intros [[H | [<- | []]] | (r1 & Hr1 & Hn)];
          [ now left
          | right; exists r; split; [now left | reflexivity]
          | right; exists r1; split; [now right | exact Hn] ].
      * intros [H | (r1 & [<- | Hr1] & Hn)];
          [ left; now left
          | left; right; left; exact Hn
          | right; now exists r1 ].
Qed.

Lemma cat_options_from_get (categories : list Category) (d : dict Z) (n : String.string) :
  (forall r, In r categories -> name r <> n) ->
  dict_get n (fold_left (fun d row => dict_set (name row) (category_id row) d) categories d)
  = dict_get n d.
Proof.
  revert d. induction categories as [|r cats IH]; intros d H; cbn [fold_left]; [reflexivity|].
  rewrite IH by (intros r1 Hr1; apply H; now right).
  apply dict_get_set_other. apply H. now left.
Qed.

(** X6.  Of two categories of one name, the later row is the one the form
    uses. *)
Theorem cat_options_last_wins (before after : list Category) (r : Category) :
  (forall r1, In r1 after -> name r1 <> name r) ->
  dict_get (name r) (cat_options (before ++ r :: after)) = Some (category_id r).
Proof.
  intros H. unfold cat_options. rewrite fold_left_app. cbn [fold_left].
  rewrite cat_options_from_get by exact H. apply dict_get_set_same.
Qed.

(** X7.  Every name is offered once, and the names offered are those of the
    rows. *)
Theorem cat_options_keys (categories : list Category) :
  NoDup (dict_keys (cat_options categories)) /\
  forall n, In n (dict_keys (cat_options categories)) <->
            exists r, In r categories /\ name r = n.
Proof.
  destruct (@cat_options_from_keys categories [] (NoDup_nil _)) as [N K].
  split; [exact N|]. intros n. unfold cat_options. rewrite K.
  split; [intros [[] | H]; exact H | now right].
Qed.

Lemma last_row_named (categories : list Category) (n : String.string) :
  (exists r, In r categories /\ name r = n) ->
  exists before r after,
    categories = before ++ r :: after /\ name r = n /\
    forall r1, In r1 after -> name r1 <> n.
Proof.
  induction categories as [|x l IH]; intros (r & Hr & Hn); [destruct Hr|].
  destruct (existsb (fun r1 => String.eqb (name r1) n) l) eqn:E.
  - apply existsb_exists in E as (r1 & Hr1 & E1). apply String.eqb_eq in E1.
    destruct IH as (before & r2 & after & -> & Hn2 & Hafter); [now exists r1|].
    exists (x :: before), r2, after. now split.
  - assert (Hnone : forall r1, In r1 l -> name r1 <> n).
    { intros r1 Hr1 Hn1.
      assert (T : existsb (fun r1 => String.eqb (name r1) n) l = true).
      { apply existsb_exists. exists r1. split; [exact Hr1 | now apply String.eqb_eq]. }
      congruence. }
    destruct Hr as [<- | Hr]; [|now elim (Hnone r Hr)].
    exists [], x, l. now split.
Qed.

(** X8.  With at least one category, whatever the select box offers is a key
    of [cat_options]: line 228 raises no [KeyError].  The expense is saved
    under the last row of that name, and under no category if the id of
    that row is 0. *)
Theorem submit_resolves (categories : list Category) (cat : String.string) :
  categories <> [] ->
  In cat (selectbox_options (cat_options categories)) ->
  exists before r after,
    categories = before ++ r :: after /\
    name r = cat /\
    (forall r1, In r1 after -> name r1 <> cat) /\
    submit (cat_options categories) cat
    = Saved (if (category_id r =? 0)%Z then None else Some (category_id r)).
Proof.
  intros Hne Hin.
  destruct (@cat_options_from_keys categories [] (NoDup_nil _)) as [_ K].
  fold (cat_options categories) in K.
  assert (Hkeys : In cat (dict_keys (cat_options categories))).
  { destruct (cat_options categories) as [|kv d] eqn:E; [|exact Hin].
    destruct categories as [|r0 l]; [congruence|].
    exfalso. assert (H0 : In (name r0) (dict_keys (@nil (String.string * Z)))).
    { apply K. right. exists r0. split; [now left | reflexivity]. }
    exact H0. }
  assert (Hrow : exists r, In r categories /\ name r = cat).
  { apply K in Hkeys as [[] | H]. exact H. }
  destruct (@last_row_named categories cat Hrow) as (before & r & after & Hcat & Hn & Hafter).
  exists before, r, after. split; [exact Hcat|]. split; [exact Hn|]. split; [exact Hafter|].
  unfold submit.
  destruct (cat_options categories) as [|kv d] eqn:E; [destruct Hkeys|].
  rewrite <- E. subst cat. rewrite Hcat.
  assert (Hafter1 : forall r1, In r1 after -> name r1 <> name r) by exact Hafter.
  unfold cat_options. rewrite fold_left_app. cbn [fold_left].
  rewrite cat_options_from_get by exact Hafter1.
  rewrite dict_get_set_same. reflexivity.
Qed.

(* ------------------------------------------------------------------ *)
(** ** The name of a new category *)

Lemma lstrip_first (is_space : Ascii.ascii -> bool) (s : String.string) (c : Ascii.ascii) :
  first_char (lstrip is_space s) = Some c -> is_space c = false.
Proof.
  induction s as [|c0 s IH]; cbn [lstrip first_char]; [discriminate|].
  destruct (is_space c0) eqn:E; [exact IH|].
  cbn [first_char]. now intros [= <-].
Qed.

Lemma lstrip_fixed (is_space : Ascii.ascii -> bool) (s : String.string) :
  (forall c, first_char s = Some c -> is_space c = false) ->
  lstrip is_space s = s.
Proof.
  destruct s as [|c s]; [reflexivity|]. intros H. cbn [lstrip].
  now rewrite (H c eq_refl).
Qed.

Lemma rstrip_first (is_space : Ascii.ascii -> bool) (s : String.string) (c : Ascii.ascii) :
  first_char (rstrip is_space s) = Some c -> first_char s = Some c.
Proof.
  destruct s as [|c0 s]; cbn [rstrip first_char]; [discriminate|].
  destruct (rstrip is_space s); [destruct (is_space c0)|]; cbn [first_char];
    congruence.
Qed.

Lemma rstrip_last (is_space : Ascii.ascii -> bool) (s : String.string) (c : Ascii.ascii) :
  last_char (rstrip is_space s) = Some c -> is_space c = false.
Proof.
  induction s as [|c0 s IH]; cbn [rstrip last_char]; [discriminate|].
  destruct (rstrip is_space s) as [|c1 t] eqn:E.
  - destruct (is_space c0) eqn:E0; cbn [last_char]; [discriminate|].
    now intros [= <-].
  - cbn [last_char]. exact IH.
Qed.

Lemma rstrip_cons (is_space : Ascii.ascii -> bool) (c : Ascii.ascii) (s : String.string) :
  rstrip is_space (String.String c s)
  = match rstrip is_space s with
    | String.EmptyString =>
        if is_space c then String.EmptyString else String.String c String.EmptyString
    | t => String.String c t
    end.
Proof. reflexivity. Qed.

Lemma rstrip_idempotent (is_space : Ascii.ascii -> bool) (s : String.string) :
  rstrip is_space (rstrip is_space s) = rstrip is_space s.
Proof.
  induction s as [|c0 s IH]; [reflexivity|]. cbn [rstrip].
  destruct (rstrip is_space s) as [|c1 t] eqn:E.
  - destruct (is_space c0) eqn:E0; [reflexivity|].
    cbn [rstrip]. now rewrite E0.
  - rewrite rstrip_cons. now rewrite IH.
Qed.

(** X9.  The name handed to [add_category] is never empty, neither starts nor
    ends with white space, and stripping it again gives it back. *)
Theorem category_to_add_clean (is_space : Ascii.ascii -> bool)
    (new_cat n : String.string) :
  category_to_add is_space new_cat = Some n ->
  n <> String.EmptyString /\
  (exists c, first_char n = Some c /\ is_space c = false) /\
  (exists c, last_char n = Some c /\ is_space c = false) /\
  strip is_space n = n.
Proof.
  unfold category_to_add. intros H.
  assert (Hn : strip is_space new_cat = n /\ n <> String.EmptyString).
  { destruct (strip is_space new_cat); [discriminate H|]. injection H as <-.
    split; [reflexivity | discriminate]. }
  clear H. destruct Hn as [Hn Hne]. split; [exact Hne|].
  assert (Hfirst : forall c, first_char n = Some c -> is_space c = false).
  { intros c Hc. rewrite <- Hn in Hc. unfold strip in Hc.
    apply rstrip_first in Hc. exact (lstrip_first _ _ Hc). }
  assert (Hlast : forall c, last_char n = Some c -> is_space c = false).
  { intros c Hc. rewrite <- Hn in Hc. unfold strip in Hc. exact (rstrip_last _ _ Hc). }
  split; [|split].
  - destruct n as [|c t]; [congruence|]. exists c. split; [reflexivity | now apply Hfirst].
  - destruct (last_char n) as [c|] eqn:L.
    + exists c. split; [reflexivity | now apply Hlast].
    + exfalso. clear - L Hne. induction n as [|c t IH]; [congruence|].
      cbn [last_char] in L. destruct t; [discriminate L | apply IH; [discriminate | exact L]].
  - unfold strip. rewrite lstrip_fixed by exact Hfirst.
    rewrite <- Hn. unfold strip. apply rstrip_idempotent.
Qed.

Lemma rstrip_empty (is_space : Ascii.ascii -> bool) (s : String.string) :
  rstrip is_space s = String.EmptyString <-> all_chars is_space s = true.
Proof.
  induction s as [|c s IH]; cbn [rstrip all_chars]; [tauto|].
  destruct (rstrip is_space s) as [|c1 t] eqn:E.
  - destruct (is_space c); cbn [andb].
    + split; [intros _; now apply IH | reflexivity].
    + split; discriminate.
  - split; [discriminate|]. intros H. apply andb_prop in H as [_ H].
    apply IH in H. discriminate H.
Qed.

Lemma lstrip_empty (is_space : Ascii.ascii -> bool) (s : String.string) :
  lstrip is_space s = String.EmptyString <-> all_chars is_space s = true.
Proof.
  induction s as [|c s IH]; cbn [lstrip all_chars]; [tauto|].
  destruct (is_space c); cbn [andb]; [exact IH | split; discriminate].
Qed.

Lemma lstrip_all_space (is_space : Ascii.ascii -> bool) (s : String.string) :
  all_chars is_space (lstrip is_space s) = true ->
  lstrip is_space s = String.EmptyString.
Proof.
  intros H. destruct (lstrip is_space s) as [|c t] eqn:E; [reflexivity|].
  cbn [all_chars] in H. apply andb_prop in H as [H _].
  assert (F : is_space c = false) by (apply (@lstrip_first is_space s); now rewrite E).
  congruence.
Qed.

(** X10.  Nothing is added exactly when the text typed is white space
    throughout, the empty text included. *)
Theorem category_to_add_blank (is_space : Ascii.ascii -> bool) (new_cat : String.string) :
  category_to_add is_space new_cat = None <-> all_chars is_space new_cat = true.
Proof.
  unfold category_to_add, strip.
  rewrite <- lstrip_empty. split.
  - intros H. apply lstrip_all_space. apply rstrip_empty.
    now destruct (rstrip is_space (lstrip is_space new_cat)).
  - intros ->. reflexivity.
Qed.

(* ------------------------------------------------------------------ *)
(** ** The text of a forecast line *)

Lemma str_replace_map (old new : Ascii.ascii) (s : String.string) :
  str_replace old new s = string_map (fun c => if Ascii.eqb c old then new else c) s.
Proof. induction s as [|c s IH]; cbn; [reflexivity | now rewrite IH]. Qed.

Lemma string_map_map (f g : Ascii.ascii -> Ascii.ascii) (s : String.string) :
  string_map f (string_map g s) = string_map (fun c => f (g c)) s.
Proof. induction s as [|c s IH]; cbn; [reflexivity | now rewrite IH]. Qed.

Lemma string_map_ext (f g : Ascii.ascii -> Ascii.ascii) (s : String.string) :
  (forall c, f c = g c) -> string_map f s = string_map g s.
Proof. intros H. induction s as [|c s IH]; cbn; [reflexivity | now rewrite H, IH]. Qed.

Lemma swap_char_steps (c : Ascii.ascii) :
  (let c1 := if Ascii.eqb c ","%char then "X"%char else c in
   let c2 := if Ascii.eqb c1 "."%char then ","%char else c1 in
   if Ascii.eqb c2 "X"%char then "."%char else c2) = swap_char c.
Proof.
  unfold swap_char. cbv zeta.
  destruct (Ascii.eqb c ","%char) eqn:E1; [reflexivity|].
  destruct (Ascii.eqb c "."%char) eqn:E2; [reflexivity|].
  reflexivity.
Qed.

Lemma swap_separators_map (s : String.string) :
  swap_separators s = string_map swap_char s.
Proof.
  unfold swap_separators. rewrite !str_replace_map, !string_map_map.
  apply string_map_ext. exact swap_char_steps.
Qed.

(** X11.  What the three [replace] of line 263 do, character by character: a
    comma becomes a period, a period a comma, an [X] a period, and nothing
    else changes. *)
Theorem swap_separators_chars (s : String.string) :
  swap_separators s = string_map swap_char s.
Proof. apply swap_separators_map. Qed.

Lemma swap_char_not_X (c : Ascii.ascii) : Ascii.eqb (swap_char c) "X"%char = false.
Proof.
  unfold swap_char.
  destruct (Ascii.eqb c ","%char); [reflexivity|].
  destruct (Ascii.eqb c "."%char); [reflexivity|].
  destruct (Ascii.eqb c "X"%char) eqn:E; [reflexivity | exact E].
Qed.

(** X12.  The text written never holds an [X]. *)
Theorem swap_separators_no_X (s : String.string) :
  occurs "X"%char (swap_separators s) = false.
Proof.
  rewrite swap_separators_map.
  induction s as [|c s IH]; cbn [string_map occurs]; [reflexivity|].
  now rewrite swap_char_not_X, IH.
Qed.

Lemma swap_char_involutive (c : Ascii.ascii) :
  Ascii.eqb c "X"%char = false -> swap_char (swap_char c) = c.
Proof.
  intros HX. unfold swap_char at 2.
  destruct (Ascii.eqb c ","%char) eqn:E1; [apply Ascii.eqb_eq in E1; now subst|].
  destruct (Ascii.eqb c "."%char) eqn:E2; [apply Ascii.eqb_eq in E2; now subst|].
  rewrite HX. unfold swap_char. now rewrite E1, E2, HX.
Qed.

(** X13.  On a text without [X] the exchange of commas and periods is undone
    by a second exchange. *)
Theorem swap_separators_involutive (s : String.string) :
  occurs "X"%char s = false -> swap_separators (swap_separators s) = s.
Proof.
  rewrite !swap_separators_map, string_map_map.
  induction s as [|c s IH]; cbn [occurs string_map]; [reflexivity|].
  intros H. apply orb_false_elim in H as [Hc Hs].
  now rewrite swap_char_involutive, IH.
Qed.

Lemma string_map_append (f : Ascii.ascii -> Ascii.ascii) (s t : String.string) :
  string_map f (String.append s t) = String.append (string_map f s) (string_map f t).
Proof. induction s as [|c s IH]; cbn; [reflexivity | now rewrite IH]. Qed.

Lemma string_map_plain (s : String.string) :
  plain s = true -> string_map swap_char s = s.
Proof.
  unfold plain. induction s as [|c s IH]; cbn [occurs string_map]; [reflexivity|].
  intros H. apply andb_prop in H as [H H3]. apply andb_prop in H as [H1 H2].
  apply negb_true_iff, orb_false_elim in H1 as [C1 S1].
  apply negb_true_iff, orb_false_elim in H2 as [C2 S2].
  apply negb_true_iff, orb_false_elim in H3 as [C3 S3].
  rewrite IH by now rewrite S1, S2, S3.
  unfold swap_char. now rewrite C1, C2, C3.
Qed.

(** X14.  With a month label and a currency sign free of commas, periods and
    [X], line 263 changes the number only. *)
Theorem forecast_line_number_only (label CURRENCY number : String.string) :
  plain label = true -> plain CURRENCY = true ->
  forecast_line label CURRENCY number
  = String.append "- "
      (String.append label
         (String.append ": "
            (String.append CURRENCY
               (String.append " " (string_map swap_char number))))).
Proof.
  intros Hl Hc. unfold forecast_line.
  rewrite swap_separators_map, !string_map_append.
  rewrite (string_map_plain _ Hl), (string_map_plain _ Hc). reflexivity.
Qed.

(* ------------------------------------------------------------------ *)
(** ** The forecast section *)

(** X15.  [monthly_forecast] returns on the empty frame only. *)
Theorem monthly_forecast_empty_or_raises (df : list ExpenseRecord) (k : Z) :
  (df = [] /\ monthly_forecast df k = Ok []) \/
  (df <> [] /\ monthly_forecast df k = Raise AttributeError).
Proof.
  destruct df as [|r df]; [left | right]; split;
    [reflexivity | reflexivity | discriminate | reflexivity].
Qed.

(** X16.  The section shows the hint for an empty history and stops on the
    exception of line 114 for any other; it never lists a forecast. *)
Theorem forecast_section_never_lists (strftime : date -> String.string)
    (format_2f : Qc -> String.string) (CURRENCY : String.string)
    (hist : list ExpenseRecord) :
  (hist = [] /\
   forecast_section strftime format_2f CURRENCY hist
   = Ok (Info "Cadastre alguns gastos para gerar a previsão."%string)) \/
  (hist <> [] /\
   forecast_section strftime format_2f CURRENCY hist = Raise AttributeError).
Proof.
  destruct hist as [|r hist]; [left | right]; split;
    [reflexivity | reflexivity | discriminate | reflexivity].
Qed.

(* ------------------------------------------------------------------ *)
(** ** Line 118 *)

(** X17.  [.asfreq("MS", fill_value=0.0)] after [.resample("MS").sum()] changes
    nothing, whatever the rows and the fill value. *)
Theorem asfreq_after_resample (rows : Series) (fill_value : Qc) :
  asfreq (resample_sum rows) fill_value = resample_sum rows.
Proof.
  destruct rows as [|r rest]; [reflexivity|].
  rewrite resample_sum_gap_free. apply asfreq_gap_free.
Qed.

(* ------------------------------------------------------------------ *)
(** ** The properties above on the sample data *)

Lemma ensure_session_state_keeps_witness :
  (dict_mem "user"%string logged_in_session = true \/
     ~ In "user"%string ["user"%string; "categories"%string; "expenses"%string]) /\
  dict_get "user"%string (ensure_session_state logged_in_session) = Some (Some 7%nat).
Proof.
  split; [left; reflexivity|].
  rewrite (@ensure_session_state_keeps nat logged_in_session "user"%string
             (or_introl eq_refl)).
  reflexivity.
Defined.

Lemma ensure_session_state_defaults_witness :
  In "expenses"%string ["user"%string; "categories"%string; "expenses"%string] /\
  exists v,
    dict_get "expenses"%string (ensure_session_state logged_in_session) = Some v /\
    (dict_get "expenses"%string logged_in_session = None -> v = None).
Proof.
  split; [simpl; auto|].
  apply (@ensure_session_state_defaults nat logged_in_session "expenses"%string).
  simpl. auto.
Defined.

Lemma cat_options_last_wins_witness :
  (forall r1, In r1 [lazer_3] -> name r1 <> name casa_2) /\
  dict_get "Casa"%string (cat_options [casa_1; casa_2; lazer_3]) = Some 2%Z.
Proof.
  assert (H : forall r1, In r1 [lazer_3] -> name r1 <> name casa_2).
  { intros r1 [<- | []]. discriminate. }
  split; [exact H|].
  exact (@cat_options_last_wins [casa_1] [lazer_3] casa_2 H).
Defined.

Lemma submit_resolves_witness :
  [casa_1; casa_2; lazer_3] <> [] /\
  In "Casa"%string (selectbox_options (cat_options [casa_1; casa_2; lazer_3])) /\
  exists before r after,
    [casa_1; casa_2; lazer_3] = before ++ r :: after /\
    name r = "Casa"%string /\
    (forall r1, In r1 after -> name r1 <> "Casa"%string) /\
    submit (cat_options [casa_1; casa_2; lazer_3]) "Casa"%string
    = Saved (if (category_id r =? 0)%Z then None else Some (category_id r)).
Proof.
  split; [discriminate|]. split; [left; reflexivity|].
  apply (@submit_resolves [casa_1; casa_2; lazer_3] "Casa"%string);
    [discriminate | left; reflexivity].
Defined.

Lemma category_to_add_clean_witness :
  category_to_add is_blank "  Mercado "%string = Some "Mercado"%string /\
  strip is_blank "Mercado"%string = "Mercado"%string.
Proof.
  split; [reflexivity|].
  exact (proj2 (proj2 (proj2
    (@category_to_add_clean is_blank "  Mercado "%string "Mercado"%string eq_refl)))).
Defined.

Lemma swap_separators_involutive_witness :
  occurs "X"%char "1,234.56"%string = false /\
  swap_separators (swap_separators "1,234.56"%string) = "1,234.56"%string.
Proof.
  split; [reflexivity|].
  exact (@swap_separators_involutive "1,234.56"%string eq_refl).
Defined.

Lemma forecast_line_number_only_witness :
  plain "Jan/2025"%string = true /\ plain "R$"%string = true /\
  forecast_line "Jan/2025"%string "R$"%string "1,234.56"%string
  = "- Jan/2025: R$ 1.234,56"%string.
Proof.
  split; [reflexivity|]. split; [reflexivity|].
  rewrite (@forecast_line_number_only "Jan/2025"%string "R$"%string "1,234.56"%string
             eq_refl eq_refl).
  reflexivity.
Defined.
